(** * randombmir audio tools: transcription, titling and HTML patching

    A shallow embedding of the Python tools of the repository
    ([transcribe_audio_local.py], [download_backup.py], [apply_titles.py])
    and the properties of their title resolution, caching, download and
    patching logic.

    Conventions.
    - A Python [str] is a [string]; a character is a code point in 0..255.
    - A directory is a finite map from file names to file contents; it
      holds files only, under plain names.  What lies outside the
      directories of the tools is not part of the state: it is asked from
      the operating system like the other capabilities.
    - The files are on a POSIX system: writing in text mode leaves the
      line ends as they are, reading in text mode turns CR LF and CR into
      LF.
    - The capabilities the tools call (HTTP, Whisper, Ollama, the file
      system outside the directories) are functions of the number of
      external calls made so far, so that they may answer differently at
      every call. *)

From Stdlib Require Import String Ascii List ZArith Lia Bool.
From stdpp Require Import base option list gmap strings sorting.

Local Open Scope stdpp_scope.

(** ** Python string operations *)

Module PyStr.

(** The double quote, written by its code so that no literal has to
    escape it. *)
Definition dquote : ascii := "034"%char.
Definition squote : ascii := "039"%char.
Definition newline : ascii := "010"%char.
Definition backslash : ascii := "092"%char.
Definition cr : ascii := "013"%char.
Definition nul : ascii := "000"%char.

Definition char (c : ascii) : string := String c EmptyString.

Definition len (s : string) : nat := String.length s.
Global Arguments len : simpl never.

(** [s[:n]] *)
Fixpoint take (n : nat) (s : string) : string :=
  match n, s with
  | S k, String c r => String c (take k r)
  | _, _ => EmptyString
  end.

(** [s[n:]] *)
Fixpoint drop (n : nat) (s : string) : string :=
  match n, s with
  | S k, String c r => drop k r
  | _, _ => s
  end.

(** [s.startswith(p)] *)
Fixpoint startswith (p s : string) : bool :=
  match p, s with
  | EmptyString, _ => true
  | String a p', String b s' => if Ascii.eqb a b then startswith p' s' else false
  | String _ _, EmptyString => false
  end.

(** [s.endswith(p)] *)
Definition endswith (p s : string) : bool :=
  (len p <=? len s)%nat && String.eqb (drop (len s - len p) s) p.

(** [sub in s] *)
Fixpoint contains (sub s : string) : bool :=
  startswith sub s ||
  match s with
  | EmptyString => false
  | String _ s' => contains sub s'
  end.

(** [c.isspace()] on the code points 0..255: TAB, LF, VT, FF, CR, the
    separators 0x1c..0x1f, space, NEL (0x85) and NBSP (0xa0). *)
Definition isspace (c : ascii) : bool :=
  let n := nat_of_ascii c in
  ((9 <=? n) && (n <=? 13) || (28 <=? n) && (n <=? 32) ||
   (n =? 133) || (n =? 160))%nat.

Fixpoint lstrip (s : string) : string :=
  match s with
  | String c r => if isspace c then lstrip r else s
  | EmptyString => EmptyString
  end.

Fixpoint rstrip (s : string) : string :=
  match s with
  | String c r =>
      match rstrip r with
      | EmptyString => if isspace c then EmptyString else char c
      | r' => String c r'
      end
  | EmptyString => EmptyString
  end.

(** [s.strip()] *)
Definition strip (s : string) : string := lstrip (rstrip s).

(** [c.lower()] on the code points 0..255: A..Z and the Latin-1 capitals
    0xc0..0xde (0xd7, the multiplication sign, apart) move up by 32. *)
Definition lower_char (c : ascii) : ascii :=
  let n := nat_of_ascii c in
  if ((65 <=? n) && (n <=? 90) ||
      (192 <=? n) && (n <=? 222) && negb (n =? 215))%nat
  then ascii_of_nat (n + 32) else c.

Fixpoint lower (s : string) : string :=
  match s with
  | String c r => String (lower_char c) (lower r)
  | EmptyString => EmptyString
  end.

(** [s.replace(old, new)]: every occurrence of [old], found left to right
    without overlap.  [skip] counts the characters of a matched occurrence
    that are still to be passed over. *)
Fixpoint replace_from (old new : string) (skip : nat) (s : string) : string :=
  match s with
  | EmptyString => EmptyString
  | String c r =>
      match skip with
      | S k => replace_from old new k r
      | O =>
          if startswith old s
          then new +:+ replace_from old new (len old - 1) r
          else String c (replace_from old new 0 r)
      end
  end.

(** With an empty [old] Python puts [new] before every character and at the
    end. *)
Fixpoint interleave (new s : string) : string :=
  match s with
  | EmptyString => new
  | String c r => new +:+ String c (interleave new r)
  end.

Definition replace (old new s : string) : string :=
  match old with
  | EmptyString => interleave new s
  | _ => replace_from old new 0 s
  end.

(** [s.split(sep)] for a one-character separator: never an empty list. *)
Fixpoint split (sep : ascii) (s : string) : list string :=
  match s with
  | EmptyString => [EmptyString]
  | String c r =>
      if Ascii.eqb c sep then EmptyString :: split sep r
      else match split sep r with
           | p :: ps => String c p :: ps
           | [] => [char c]
           end
  end.

(** [sep.join(parts)] *)
Fixpoint join (sep : string) (parts : list string) : string :=
  match parts with
  | [] => EmptyString
  | [p] => p
  | p :: ps => p +:+ sep +:+ join sep ps
  end.

(** [c in s] for a character. *)
Fixpoint has_char (c : ascii) (s : string) : bool :=
  match s with
  | EmptyString => false
  | String a r => Ascii.eqb a c || has_char c r
  end.

(** The translation of line ends that [read()] does on a file opened in
    text mode with the default [newline=None]: CR LF and CR become LF. *)
Fixpoint universal_newlines (s : string) : string :=
  match s with
  | EmptyString => EmptyString
  | String c r =>
      if Ascii.eqb c cr then
        String newline
          match r with
          | String d r' =>
              if Ascii.eqb d newline then universal_newlines r'
              else universal_newlines r
          | EmptyString => EmptyString
          end
      else String c (universal_newlines r)
  end.

End PyStr.

Import PyStr.

(** ** Python dictionaries

    A [dict] keeps its keys in insertion order, and the loops of the source
    over [items()] follow it. *)

Module PyDict.

Fixpoint get {V : Type} (k : string) (d : list (string * V)) : option V :=
  match d with
  | [] => None
  | (k', v) :: rest => if String.eqb k' k then Some v else get k rest
  end.

(** [d[k] = v]: in place when the key is there, at the end otherwise. *)
Fixpoint set {V : Type} (k : string) (v : V) (d : list (string * V))
  : list (string * V) :=
  match d with
  | [] => [(k, v)]
  | (k', v') :: rest =>
      if String.eqb k' k then (k, v) :: rest else (k', v') :: set k v rest
  end.

End PyDict.

(** ** Files and paths *)

(** [open(name, 'r', encoding='utf-8').read()] on a file that holds
    [stored]. *)
Definition read_text (stored : string) : string := universal_newlines stored.

Module PyPath.

(** The components of a relative path as [pathlib] keeps them: the empty
    ones and [.] are dropped, [..] stays. *)
Definition components (name : string) : list string :=
  filter (fun part => part <> EmptyString /\ part <> ".") (split "/" name).

(** Where [directory / name] points. *)
Inductive Location : Type :=
| Entry (entry : string)   (* the file [entry] of the directory, there or not *)
| Directory                (* the directory itself *)
| Unreachable              (* nothing can be there: a NUL in the name, or a
                              path through a name of the directory, which
                              holds no directories *)
| Elsewhere.               (* a path that leaves the directory *)

Definition locate (name : string) : Location :=
  if has_char nul name then Unreachable
  else if startswith "/" name then Elsewhere
  else
    let parts := components name in
    if bool_decide (".." ∈ parts) then Elsewhere
    else match parts with
         | [] => Directory
         | [entry] => Entry entry
         | _ => Unreachable
         end.

(** [(Path(directory) / name).name] *)
Definition path_name (directory name : string) : string :=
  default (if startswith "/" name then EmptyString else directory)
          (last (components name)).

(** What the operating system finds at a path that leaves the directory. *)
Inductive PathState : Type :=
| Present (size : nat)     (* something is there, of that size *)
| Writable                 (* nothing is there, and a file can be made *)
| Closed.                  (* nothing is there, and [open] raises *)

End PyPath.

Import PyPath.

(** ** The regular expressions of the source *)

Module Re.

(** The character class of [r'[.!?]+']. *)
Definition is_sentence_end (c : ascii) : bool :=
  Ascii.eqb c "." || Ascii.eqb c "!" || Ascii.eqb c "?".

(** [re.split(r'[.!?]+', s)]: the pieces between the maximal runs of
    sentence-ending characters; [in_run] tells that the previous character
    belonged to such a run.  The result always has a first piece. *)
Fixpoint split_from (in_run : bool) (s : string) : list string :=
  match s with
  | EmptyString => [EmptyString]
  | String c r =>
      if is_sentence_end c then
        if in_run then split_from true r
        else EmptyString :: split_from true r
      else
        match split_from false r with
        | p :: ps => String c p :: ps
        | [] => [char c]
        end
  end.

Definition split_sentences (s : string) : list string := split_from false s.

(** *** Scanning

    [re.findall] and [re.sub] try the pattern at every position from left
    to right and go on after the end of a match.  The patterns of the source
    never match the empty string. *)

(** The longest prefix of [s] whose characters all satisfy [p]. *)
Fixpoint take_while (p : ascii -> bool) (s : string) : string :=
  match s with
  | String c r => if p c then String c (take_while p r) else EmptyString
  | EmptyString => EmptyString
  end.

Definition not_dquote (c : ascii) : bool := negb (Ascii.eqb c dquote).
Definition not_lt (c : ascii) : bool := negb (Ascii.eqb c "<").

(** [\d] on the code points 0..255. *)
Definition isdigit (c : ascii) : bool :=
  let n := nat_of_ascii c in ((48 <=? n) && (n <=? 57))%nat.

Definition audio_host : string :=
  "https://s3-us-west-1.amazonaws.com/randombmir/".

(** The pattern [attr="(https://s3-us-west-1\.amazonaws\.com/randombmir/[^"]+\.mp3)"]
    tried at the start of [s]: the captured URL and the length of the
    match.  After the literal prefix, [[^"]+] can only stop where the
    closing quote of the pattern meets the first quote of the text, so the
    match exists exactly when the run of characters before that quote has
    at least one character followed by [.mp3]. *)
Definition match_url_at (attr s : string) : option (string * nat) :=
  let prefix := attr +:+ "=" +:+ char dquote +:+ audio_host in
  if startswith prefix s then
    let rest := drop (len prefix) s in
    let run := take_while not_dquote rest in
    if startswith (char dquote) (drop (len run) rest)
       && endswith ".mp3" run && (5 <=? len run)%nat
    then Some (audio_host +:+ run, len prefix + len run + 1)
    else None
  else None.

(** [re.findall] for that pattern; [skip] counts the characters of the last
    match still to be passed over. *)
Fixpoint findall_from (attr : string) (skip : nat) (s : string) : list string :=
  match s with
  | EmptyString => []
  | String _ r =>
      match skip with
      | S k => findall_from attr k r
      | O =>
          match match_url_at attr s with
          | Some (url, n) => url :: findall_from attr (n - 1) r
          | None => findall_from attr 0 r
          end
      end
  end.

Definition findall_urls (attr content : string) : list string :=
  findall_from attr 0 content.

(** *** Replacement templates

    The replacement of [re.sub] is a template: a backslash starts an
    escape, a group reference or an octal code.  [re] compiles the template
    before it looks for a match and raises [re.error] when it is
    ill-formed. *)

Inductive TemplatePart : Type :=
| TLit (c : ascii)
| TGroup (index : nat).

Inductive TemplateState : Type :=
| TNormal
| TEscape                          (* after a backslash *)
| TNamed0                          (* after \g *)
| TNamed (index : option nat)      (* inside \g<...>, the digits read *)
| TOctal0 (more value : nat)       (* after \0, at most [more] octal digits *)
| TDigit1 (d : nat)                (* after \d, d in 1..9 *)
| TDigit2 (d e : nat).             (* after \de *)

Definition digit_value (c : ascii) : nat := nat_of_ascii c - 48.

Definition isoctal (c : ascii) : bool :=
  let n := nat_of_ascii c in ((48 <=? n) && (n <=? 55))%nat.

Definition is_ascii_letter (c : ascii) : bool :=
  let n := nat_of_ascii c in
  ((65 <=? n) && (n <=? 90) || (97 <=? n) && (n <=? 122))%nat.

(** A character read outside an escape. *)
Definition template_normal (c : ascii) : TemplateState * list TemplatePart :=
  if Ascii.eqb c backslash then (TEscape, []) else (TNormal, [TLit c]).

(** [addgroup]: a reference beyond the groups of the pattern is an error. *)
Definition add_group (groups index : nat) : option (list TemplatePart) :=
  if (index <=? groups)%nat then Some [TGroup index] else None.

(** The escapes of one letter. *)
Definition escape_letter (c : ascii) : option ascii :=
  if Ascii.eqb c "a" then Some "007"%char
  else if Ascii.eqb c "b" then Some "008"%char
  else if Ascii.eqb c "f" then Some "012"%char
  else if Ascii.eqb c "n" then Some "010"%char
  else if Ascii.eqb c "r" then Some "013"%char
  else if Ascii.eqb c "t" then Some "009"%char
  else if Ascii.eqb c "v" then Some "011"%char
  else if Ascii.eqb c backslash then Some backslash
  else None.

(** One character of the template.  In [\g<...>] only a decimal number is
    taken for a group; a name is an error since the patterns of the source
    have no named group. *)
Definition template_step (groups : nat) (st : TemplateState) (c : ascii)
  : option (TemplateState * list TemplatePart) :=
  match st with
  | TNormal => Some (template_normal c)
  | TEscape =>
      if Ascii.eqb c "g" then Some (TNamed0, [])
      else if Ascii.eqb c "0" then Some (TOctal0 2 0, [])
      else if isdigit c then Some (TDigit1 (digit_value c), [])
      else match escape_letter c with
           | Some e => Some (TNormal, [TLit e])
           | None =>
               if is_ascii_letter c then None
               else Some (TNormal, [TLit backslash; TLit c])
           end
  | TNamed0 => if Ascii.eqb c "<" then Some (TNamed None, []) else None
  | TNamed index =>
      if Ascii.eqb c ">" then
        match index with
        | Some i => parts ← add_group groups i; Some (TNormal, parts)
        | None => None
        end
      else if isdigit c then
        Some (TNamed (Some (default 0 index * 10 + digit_value c)), [])
      else None
  | TOctal0 more value =>
      match more with
      | S k =>
          if isoctal c then Some (TOctal0 k (value * 8 + digit_value c), [])
          else let '(st', parts) := template_normal c in
               Some (st', TLit (ascii_of_nat value) :: parts)
      | O => let '(st', parts) := template_normal c in
             Some (st', TLit (ascii_of_nat value) :: parts)
      end
  | TDigit1 d =>
      if isdigit c then Some (TDigit2 d (digit_value c), [])
      else
        parts ← add_group groups d;
        let '(st', parts') := template_normal c in Some (st', parts ++ parts')
  | TDigit2 d e =>
      if (d <=? 7)%nat && (e <=? 7)%nat && isoctal c then
        let value := d * 64 + e * 8 + digit_value c in
        if (255 <? value)%nat then None
        else Some (TNormal, [TLit (ascii_of_nat value)])
      else
        parts ← add_group groups (d * 10 + e);
        let '(st', parts') := template_normal c in Some (st', parts ++ parts')
  end.

(** The end of the template. *)
Definition template_end (groups : nat) (st : TemplateState)
  : option (list TemplatePart) :=
  match st with
  | TNormal => Some []
  | TEscape | TNamed0 | TNamed _ => None
  | TOctal0 _ value => Some [TLit (ascii_of_nat value)]
  | TDigit1 d => add_group groups d
  | TDigit2 d e => add_group groups (d * 10 + e)
  end.

Fixpoint parse_template_from (groups : nat) (st : TemplateState) (s : string)
  : option (list TemplatePart) :=
  match s with
  | EmptyString => template_end groups st
  | String c r =>
      match template_step groups st c with
      | Some (st', parts) =>
          match parse_template_from groups st' r with
          | Some rest => Some (parts ++ rest)
          | None => None
          end
      | None => None
      end
  end.

(** The compiled template, or [None] when [re] raises. *)
Definition parse_template (groups : nat) (repl : string) : option (list TemplatePart) :=
  parse_template_from groups TNormal repl.

(** The text a compiled template stands for at a match; [found] holds the
    whole match and then the groups. *)
Fixpoint expand (parts : list TemplatePart) (found : list string) : string :=
  match parts with
  | [] => EmptyString
  | TLit c :: rest => String c (expand rest found)
  | TGroup i :: rest => nth i found EmptyString +:+ expand rest found
  end.

(** [re.sub] with a compiled template: [match_at] gives the whole match,
    its groups and its length. *)
Fixpoint sub_from (match_at : string -> option (list string * nat))
  (parts : list TemplatePart) (skip : nat) (s : string) : string :=
  match s with
  | EmptyString => EmptyString
  | String c r =>
      match skip with
      | S k => sub_from match_at parts k r
      | O =>
          match match_at s with
          | Some (found, n) => expand parts found +:+ sub_from match_at parts (n - 1) r
          | None => String c (sub_from match_at parts 0 r)
          end
      end
  end.

(** [re.sub(pattern, repl, s)] for a pattern with [groups] groups. *)
Definition sub (groups : nat) (match_at : string -> option (list string * nat))
  (repl s : string) : option string :=
  parts ← parse_template groups repl;
  Some (sub_from match_at parts 0 s).

(** The pattern [data-audio="URL">[^<]+</li>], the URL escaped: the text
    of the item is the run of characters before the next [<], which has to
    be non-empty and followed by [</li>]. *)
Definition li_open (url : string) : string :=
  "data-audio=" +:+ char dquote +:+ url +:+ char dquote +:+ ">".

Definition match_li_at (url s : string) : option (list string * nat) :=
  let prefix := li_open url in
  if startswith prefix s then
    let rest := drop (len prefix) s in
    let text := take_while not_lt rest in
    if (1 <=? len text)%nat && startswith "</li>" (drop (len text) rest)
    then Some ([prefix +:+ text +:+ "</li>"], len prefix + len text + 5)
    else None
  else None.

(** The pattern
    [<span style="white-space: nowrap;">(\d+)<audio controls preload="none"><source src="URL" type="audio/mpeg">],
    the URL escaped: the index is the run of digits after the opening
    tag. *)
Definition span_open : string :=
  "<span style=" +:+ char dquote +:+ "white-space: nowrap;" +:+ char dquote +:+ ">".

Definition audio_open (url : string) : string :=
  "<audio controls preload=" +:+ char dquote +:+ "none" +:+ char dquote +:+
  "><source src=" +:+ char dquote +:+ url +:+ char dquote +:+
  " type=" +:+ char dquote +:+ "audio/mpeg" +:+ char dquote +:+ ">".

Definition match_span_at (url s : string) : option (list string * nat) :=
  if startswith span_open s then
    let rest := drop (len span_open) s in
    let index := take_while isdigit rest in
    if (1 <=? len index)%nat && startswith (audio_open url) (drop (len index) rest)
    then Some ([span_open +:+ index +:+ audio_open url; index],
               len span_open + len index + len (audio_open url))
    else None
  else None.

End Re.

(** ** Title resolution ([LocalAudioTranscriber]) *)

(** The two lines
    [if len(title) > 50: title = title[:47] + "..."]
    shared by the generated and the heuristic title. *)
Definition truncate_title (title : string) : string :=
  if (50 <? len title)%nat then take 47 title +:+ "..." else title.

(** The sentence before truncation: [sentences[0].strip()] with the
    newlines and the double spaces replaced. *)
Definition first_sentence_text (transcript : string) : string :=
  let sentences := Re.split_sentences (strip transcript) in
  let first_sentence :=
    match sentences with
    | s0 :: _ => strip s0
    | [] => strip transcript
    end in
  replace "  " " " (replace (char newline) " " first_sentence).

(** [extract_first_sentence] *)
Definition extract_first_sentence (transcript : string) : string :=
  truncate_title (first_sentence_text transcript).

Definition refusal_phrases : list string :=
  [ "i can not"; "i cannot"; "i'm unable"; "i am unable";
    "i'm sorry"; "i am sorry"; "i cannot create";
    "i can not create"; "i'm not able"; "i am not able" ].

(** [any(phrase in title.lower() for phrase in [...])] *)
Definition refused (title : string) : bool :=
  existsb (fun phrase => contains phrase (lower title)) refusal_phrases.

(** The two [replace] calls that delete the double and the single quotes of
    a model response. *)
Definition strip_quotes (title : string) : string :=
  replace (char squote) EmptyString (replace (char dquote) EmptyString title).

(** The title kept from an accepted model response. *)
Definition clean_title (title : string) : string :=
  truncate_title (strip_quotes title).

Definition models_to_try : list string :=
  [ "llama3.2:3b"; "llama3.1:8b"; "mistral:7b"; "codellama:7b" ].

Definition nl : string := char newline.

(** The prompt sent to every model. *)
Definition prompt_of (transcript filename : string) : string :=
  let transcript_preview :=
    if (500 <? len transcript)%nat then take 500 transcript else transcript in
  nl +:+
  "        Create a catchy, descriptive title (max 50 characters) for this BMIR audio excerpt." +:+ nl +:+
  "        Focus on the main topic, theme, or memorable moment from the audio." +:+ nl +:+
  "        Make it engaging and descriptive of the content. Avoid generic titles." +:+ nl +:+
  "        " +:+ nl +:+
  "        Transcript: " +:+ char dquote +:+ transcript_preview +:+ char dquote +:+ nl +:+
  "        Original filename: " +:+ filename +:+ nl +:+
  "        " +:+ nl +:+
  "        Return only the title, nothing else." +:+ nl +:+
  "        ".

(** The content written by [save_title_to_file]. *)
Definition title_file_content (filename title transcript : string) : string :=
  "# Title for " +:+ filename +:+ nl +:+
  nl +:+
  "## Current Title (from first sentence):" +:+ nl +:+
  title +:+ nl +:+
  nl +:+
  "## Transcript Preview:" +:+ nl +:+
  take 300 transcript +:+ "..." +:+ nl +:+
  nl +:+
  "## Instructions:" +:+ nl +:+
  "- The title above was generated from the first sentence of the transcript" +:+ nl +:+
  "- You can edit it to make it more engaging or descriptive" +:+ nl +:+
  "- Keep it under 50 characters" +:+ nl +:+
  "- Replace the title above with your improved version if desired" +:+ nl +:+
  nl +:+
  "## Your Title:" +:+ nl +:+
  title +:+ nl.

(** [f"{filename.replace('.mp3', '')}.title"] *)
Definition title_file_name (filename : string) : string :=
  replace ".mp3" EmptyString filename +:+ ".title".

(** [title_file.name.replace('.title', '.mp3')] *)
Definition mp3_of_title_file (name : string) : string :=
  replace ".title" ".mp3" name.

(** The test of the loop of [load_human_titles]:
    [line.strip() and not line.startswith('#') and not line.startswith('[')]. *)
Definition qualifies (line : string) : bool :=
  negb (String.eqb (strip line) EmptyString) &&
  negb (startswith "#" line) && negb (startswith "[" line).

(** The first line of a title file that passes the test; [content] is
    what the file holds, [f.read().split('\n')] gives the lines. *)
Definition first_qualifying_line (content : string) : option string :=
  find qualifies (split newline (read_text content)).

(** The title file of [filename] leads back to [filename], and no other
    title file of the directory does.  It is so for a name such as
    [01+secret.mp3], whose only dot is that of its suffix. *)
Definition owns_title_file (files : gmap string string) (filename : string) : Prop :=
  mp3_of_title_file (title_file_name filename) = filename /\
  map_Forall (fun name _ =>
    endswith ".title" name = true -> mp3_of_title_file name = filename ->
    name = title_file_name filename) files.

Global Instance owns_title_file_dec files filename :
  Decision (owns_title_file files filename).
Proof. unfold owns_title_file. apply _. Defined.

(** ** The state of a [LocalAudioTranscriber] and its capabilities *)

(** One external call. *)
Inductive Event : Type :=
| EvHttpGet (url : string)
| EvWhisper (audio_path : string)
| EvOllama (model : string).

(** A value of [self.transcriptions]. *)
Record TranscriptRecord : Type := {
  tr_transcript : string;
  tr_audio_path : string;
  tr_transcript_path : string;
  tr_title : option string;
}.

Record Transcriber : Type := {
  out_files : gmap string string;      (* the files of [self.output_dir] *)
  cwd_files : gmap string string;      (* the HTML documents and their backups *)
  transcriptions : list (string * TranscriptRecord);   (* a [dict] *)
  events : list Event;                 (* the external calls made so far *)
}.

Definition set_out_files (f : gmap string string) (st : Transcriber) : Transcriber :=
  {| out_files := f; cwd_files := cwd_files st;
     transcriptions := transcriptions st; events := events st |}.

Definition set_cwd_files (f : gmap string string) (st : Transcriber) : Transcriber :=
  {| out_files := out_files st; cwd_files := f;
     transcriptions := transcriptions st; events := events st |}.

Definition set_transcriptions (t : list (string * TranscriptRecord)) (st : Transcriber)
  : Transcriber :=
  {| out_files := out_files st; cwd_files := cwd_files st;
     transcriptions := t; events := events st |}.

Definition record_event (e : Event) (st : Transcriber) : Transcriber :=
  {| out_files := out_files st; cwd_files := cwd_files st;
     transcriptions := transcriptions st; events := events st ++ [e] |}.

(** What [requests.post] to the Ollama endpoint gives: an exception, or a
    status code with, when [response.json()['response']] can be read, its
    text. *)
Inductive OllamaReply : Type :=
| PostRaises
| PostStatus (status_code : Z) (response : option string).

(** The replies after which the loop goes on with the next model. *)
Definition falls_through (r : OllamaReply) : bool :=
  match r with
  | PostStatus code (Some response) =>
      if (code =? 200)%Z then refused (strip response) else true
  | _ => true
  end.

(** [save_title_to_file] *)
Definition save_title_to_file (st : Transcriber) (filename title transcript : string)
  : Transcriber :=
  set_out_files
    (<[title_file_name filename := title_file_content filename title transcript]>
       (out_files st)) st.

Section Resolver.

(** The order in which [glob] lists a directory is not specified. *)
Variable scandir : gmap string string -> list (string * string).
Hypothesis scandir_perm : forall m, scandir m ≡ₚ map_to_list m.

(** The Ollama endpoint: number of calls so far, model, prompt. *)
Variable ollama : nat -> string -> string -> OllamaReply.

(** One round of the loop over [title_files]. *)
Definition load_title_file (human_titles : gmap string string)
  (entry : string * string) : gmap string string :=
  match first_qualifying_line (snd entry) with
  | Some line => <[mp3_of_title_file (fst entry) := strip line]> human_titles
  | None => human_titles
  end.

(** [self.output_dir.glob("*.title")] *)
Definition title_files (st : Transcriber) : list (string * string) :=
  filter (fun entry => endswith ".title" (fst entry) = true) (scandir (out_files st)).

(** [load_human_titles] *)
Definition load_human_titles (st : Transcriber) : gmap string string :=
  foldl load_title_file ∅ (title_files st).

(** The loop over [models_to_try]; an accepted title is saved and returned
    from inside the loop. *)
Fixpoint try_models (models : list string) (prompt transcript filename : string)
  (st : Transcriber) : option string * Transcriber :=
  match models with
  | [] => (None, st)
  | model :: rest =>
      let reply := ollama (length (events st)) model prompt in
      let st := record_event (EvOllama model) st in
      match reply with
      | PostStatus code (Some response) =>
          if (code =? 200)%Z then
            let title := strip response in
            if refused title then try_models rest prompt transcript filename st
            else
              let title := clean_title title in
              (Some title, save_title_to_file st filename title transcript)
          else try_models rest prompt transcript filename st
      | _ => try_models rest prompt transcript filename st
      end
  end.

(** [generate_title_from_transcript] *)
Definition generate_title_from_transcript (st : Transcriber)
  (transcript filename : string) : string * Transcriber :=
  let human_titles := load_human_titles st in
  match human_titles !! filename with
  | Some title => (title, save_title_to_file st filename title transcript)
  | None =>
      match try_models models_to_try (prompt_of transcript filename)
              transcript filename st with
      | (Some title, st') => (title, st')
      | (None, st') =>
          let first_sentence := extract_first_sentence transcript in
          (first_sentence, save_title_to_file st' filename first_sentence transcript)
      end
  end.

End Resolver.

(** The file name owns its title file, and this file is one written by
    [save_title_to_file] for a title of one line that is [title] once its
    ends are stripped. *)
Definition pinned (filename title : string) (st : Transcriber) : Prop :=
  owns_title_file (out_files st) filename /\
  exists t transcript,
    out_files st !! title_file_name filename
      = Some (title_file_content filename t transcript) /\
    has_char newline t = false /\ has_char cr t = false /\
    strip t = title.

(** The state after a sequence of title resolutions for one file name, each
    with its own models and transcript. *)
Fixpoint resolve_again (scandir : gmap string string -> list (string * string))
  (runs : list ((nat -> string -> string -> OllamaReply) * string))
  (filename : string) (st : Transcriber) : Transcriber :=
  match runs with
  | [] => st
  | (ollama, transcript) :: rest =>
      resolve_again scandir rest filename
        (generate_title_from_transcript scandir ollama st transcript filename).2
  end.

(** ** URL discovery *)

(** [extract_audio_urls_from_html] on the text of the document: the matches
    of the two patterns go into a set, which is returned sorted. *)
Definition extract_audio_urls (content : string) : list string :=
  let urls : gset string :=
    list_to_set (Re.findall_urls "src" content ++ Re.findall_urls "data-audio" content) in
  merge_sort String.le (elements urls).

(** ** Download, transcription and the run of [LocalAudioTranscriber] *)

(** What [requests.get(url, stream=True)] gives.  The header is absent
    ([None]), not a number ([Some None]) or a number. *)
Record HttpResponse : Type := {
  get_raises : bool;                    (* [get] or [raise_for_status] raises *)
  content_length : option (option Z);
  chunks : list string;                 (* what [iter_content] yields *)
  stream_raises : bool;                 (* and then raises *)
}.

(** The bytes of a file after the chunks are written to it. *)
Definition written (chunks : list string) : string :=
  foldl String.append EmptyString chunks.

Inductive Outcome : Type := Completed | Raised.

(** [url.split('/')[-1]] *)
Definition last_segment (url : string) : string :=
  default EmptyString (last (split "/" url)).

(** [str(self.output_dir / name)] with the default [output_dir]. *)
Definition output_path (name : string) : string := "audio_files/" +:+ name.

(** One round of the loop of [update_html_file]: the two substitutions for
    one URL; [None] when [re] raises. *)
Definition patch_url (content : string) (entry : string * string) : option string :=
  let '(url, title) := entry in
  content ←
    Re.sub 1 (Re.match_span_at url)
      (Re.span_open +:+ char backslash +:+ "1. " +:+ title +:+ Re.audio_open url)
      content;
  Re.sub 0 (Re.match_li_at url) (Re.li_open url +:+ title +:+ "</li>") content.

Fixpoint patch_all (url_to_title : list (string * string)) (content : string)
  : option string :=
  match url_to_title with
  | [] => Some content
  | entry :: rest => content ← patch_url content entry; patch_all rest content
  end.

(** [update_html_file] on the files of the working directory.  The
    document is read in text mode, for the backup and for the patch. *)
Definition update_html (html_file : string) (url_to_title : list (string * string))
  (files : gmap string string) : Outcome * gmap string string :=
  let backup_file := html_file +:+ ".backup" in
  match files !! html_file with
  | None => (Raised, files)
  | Some stored =>
      let content := read_text stored in
      let files :=
        match files !! backup_file with
        | None => <[backup_file := content]> files
        | Some _ => files
        end in
      match patch_all url_to_title content with
      | None => (Raised, files)
      | Some updated_content => (Completed, <[html_file := updated_content]> files)
      end
  end.

Definition update_html_file (st : Transcriber) (html_file : string)
  (url_to_title : list (string * string)) : Outcome * Transcriber :=
  let '(outcome, files) := update_html html_file url_to_title (cwd_files st) in
  (outcome, set_cwd_files files st).

Section Pipeline.

Variable scandir : gmap string string -> list (string * string).

(** [urllib.parse.unquote] *)
Variable unquote : string -> string.

(** The capabilities: number of external calls so far, then the request. *)
Variable http_get : nat -> string -> HttpResponse.
Variable whisper : nat -> string -> option string -> option (list string).
Variable ollama : nat -> string -> string -> OllamaReply.

(** What is at a path that leaves the output directory, the path being
    given from that directory. *)
Variable elsewhere : nat -> string -> PathState.

(** [json.dump(self.transcriptions, ...)] *)
Variable json_dump : list (string * TranscriptRecord) -> string.

(** The [try] block of [download_audio_file] for a file of the output
    directory. *)
Definition fetch_entry (st : Transcriber) (url entry : string)
  : option string * Transcriber :=
  let response := http_get (length (events st)) url in
  let st := record_event (EvHttpGet url) st in
  if get_raises response then (None, st)
  else
    let st := set_out_files (<[entry := written (chunks response)]> (out_files st)) st in
    if stream_raises response then (None, st) else (Some entry, st).

(** [download_audio_file]; the path returned is given by its [name], which
    is what the callers take from it.  A file stored under the name as it
    is written is there; otherwise the name is resolved from the output
    directory: the directory itself exists, a path that cannot be reached
    does not and cannot be opened, and what is written outside the
    directory is not kept in the state. *)
Definition download_audio_file (st : Transcriber) (url : string)
  : option string * Transcriber :=
  let filename := unquote (last_segment url) in
  match out_files st !! filename with
  | Some _ => (Some filename, st)
  | None =>
      match locate filename with
      | Entry entry =>
          match out_files st !! entry with
          | Some _ => (Some entry, st)
          | None => fetch_entry st url entry
          end
      | Directory => (Some (path_name "audio_files" filename), st)
      | Unreachable => (None, record_event (EvHttpGet url) st)
      | Elsewhere =>
          match elsewhere (length (events st)) filename with
          | Present _ => (Some (path_name "audio_files" filename), st)
          | Writable =>
              let response := http_get (length (events st)) url in
              let st := record_event (EvHttpGet url) st in
              if get_raises response || stream_raises response then (None, st)
              else (Some (path_name "audio_files" filename), st)
          | Closed => (None, record_event (EvHttpGet url) st)
          end
      end
  end.

(** [transcribe_audio]; [None] from Whisper stands for an exception. *)
Definition transcribe_audio (st : Transcriber) (filename : string)
  : option string * Transcriber :=
  let transcript_filename := replace ".mp3" ".txt" filename in
  match PyDict.get filename (transcriptions st) with
  | Some record => (Some (tr_transcript record), st)
  | None =>
      let result :=
        whisper (length (events st)) (output_path filename) (out_files st !! filename) in
      let st := record_event (EvWhisper (output_path filename)) st in
      match result with
      | None => (None, st)
      | Some segments =>
          let transcript := join " " segments in
          let st := set_out_files (<[transcript_filename := transcript]> (out_files st)) st in
          let st :=
            set_transcriptions
              (PyDict.set filename
                 {| tr_transcript := transcript;
                    tr_audio_path := output_path filename;
                    tr_transcript_path := output_path transcript_filename;
                    tr_title := None |}
                 (transcriptions st)) st in
          (Some transcript, st)
      end
  end.

(** The loop of [process_html_file]. *)
Fixpoint process_urls (urls : list string) (url_to_title : list (string * string))
  (st : Transcriber) : list (string * string) * Transcriber :=
  match urls with
  | [] => (url_to_title, st)
  | url :: rest =>
      match download_audio_file st url with
      | (None, st) => process_urls rest url_to_title st
      | (Some audio, st) =>
          match transcribe_audio st audio with
          | (None, st) => process_urls rest url_to_title st
          | (Some transcript, st) =>
              if String.eqb transcript EmptyString
              then process_urls rest url_to_title st
              else
                let '(title, st) :=
                  generate_title_from_transcript scandir ollama st transcript audio in
                process_urls rest (PyDict.set url title url_to_title) st
          end
      end
  end.

(** [process_html_file]; [None] when the document cannot be opened. *)
Definition process_html_file (st : Transcriber) (html_file : string)
  : option (list (string * string) * Transcriber) :=
  stored ← cwd_files st !! html_file;
  Some (process_urls (extract_audio_urls (read_text stored)) [] st).

(** The first loop of [save_transcriptions], over the items the dictionary
    had when the loop began. *)
Fixpoint add_titles (items : list (string * TranscriptRecord)) (st : Transcriber)
  : Transcriber :=
  match items with
  | [] => st
  | (filename, info) :: rest =>
      match tr_title info with
      | Some _ => add_titles rest st
      | None =>
          let '(title, st) :=
            generate_title_from_transcript scandir ollama st (tr_transcript info) filename in
          let info :=
            {| tr_transcript := tr_transcript info;
               tr_audio_path := tr_audio_path info;
               tr_transcript_path := tr_transcript_path info;
               tr_title := Some title |} in
          add_titles rest (set_transcriptions (PyDict.set filename info (transcriptions st)) st)
      end
  end.

(** [save_transcriptions] *)
Definition save_transcriptions (st : Transcriber) : Transcriber :=
  let st := add_titles (transcriptions st) st in
  set_cwd_files (<["transcriptions.json" := json_dump (transcriptions st)]> (cwd_files st)) st.

(** [run_complete_workflow] *)
Definition run_complete_workflow (st : Transcriber) : Outcome * Transcriber :=
  let html_file := "index.html" in
  match process_html_file st html_file with
  | Some (url_to_title, st) =>
      match update_html_file st html_file url_to_title with
      | (Completed, st) => (Completed, save_transcriptions st)
      | (Raised, st) => (Raised, st)
      end
  | None => (Completed, save_transcriptions st)
  end.

End Pipeline.

(** An external call is due in a state when the file it fetches is not in
    the output directory, or the file it transcribes is not a key of
    [self.transcriptions]. *)
Definition due (unquote : string -> string) (st : Transcriber) (e : Event) : Prop :=
  match e with
  | EvHttpGet url => out_files st !! unquote (last_segment url) = None
  | EvWhisper path =>
      forall filename, path = output_path filename ->
        PyDict.get filename (transcriptions st) = None
  | EvOllama _ => True
  end.

(** [st'] comes after [st]: no file and no transcription is lost, and the
    calls made in between were due in [st]. *)
Definition comes_after (unquote : string -> string) (st st' : Transcriber) : Prop :=
  dom (out_files st) ⊆ dom (out_files st') /\
  (forall k, is_Some (PyDict.get k (transcriptions st)) ->
             is_Some (PyDict.get k (transcriptions st'))) /\
  exists new, events st' = events st ++ new /\ Forall (due unquote st) new.

(** A transcriber as [main] creates it: the files are those on disk, the
    dictionary of transcriptions is empty. *)
Definition new_transcriber (out cwd : gmap string string) : Transcriber :=
  {| out_files := out; cwd_files := cwd; transcriptions := []; events := [] |}.

(** The state in which a later run of the script starts. *)
Definition restart (st : Transcriber) : Transcriber :=
  new_transcriber (out_files st) (cwd_files st).

(** ** [apply_titles.py] *)

(** [re.search]: is there a match at some position? *)
Fixpoint search (match_at : string -> option (list string * nat)) (s : string) : bool :=
  match s with
  | EmptyString => false
  | String _ r => bool_decide (is_Some (match_at s)) || search match_at r
  end.

Definition apply_title (content : string) (entry : string * string) : option string :=
  let '(url, title) := entry in
  if search (Re.match_span_at url) content then
    Re.sub 1 (Re.match_span_at url)
      (Re.span_open +:+ char backslash +:+ "1. " +:+ title +:+ Re.audio_open url)
      content
  else Some content.

Fixpoint apply_all (url_to_title : list (string * string)) (content : string)
  : option string :=
  match url_to_title with
  | [] => Some content
  | entry :: rest => content ← apply_title content entry; apply_all rest content
  end.

(** [apply_existing_titles], from the point where [url_to_title] has been
    built from [transcriptions.json]. *)
Definition apply_existing_titles (url_to_title : list (string * string))
  (files : gmap string string) : Outcome * gmap string string :=
  match files !! "index.html" with
  | None => (Raised, files)
  | Some stored =>
      let content := read_text stored in
      let files :=
        match files !! "index.html.backup" with
        | None => <["index.html.backup" := content]> files
        | Some _ => files
        end in
      match apply_all url_to_title content with
      | None => (Raised, files)
      | Some updated_content => (Completed, <["index.html" := updated_content]> files)
      end
  end.

(** ** [AudioBackupDownloader] *)

Record Stats : Type := {
  total_files : nat;
  downloaded : nat;
  skipped : nat;
  failed : nat;
  total_size : nat;
}.

Record Downloader : Type := {
  backup_files : gmap (string * string) string;  (* category and name, to the bytes *)
  backup_dirs : gset string;                     (* the directories of [backup_dir] *)
  stats : Stats;
  requests : list string;                        (* the URLs requested so far *)
}.

Definition categories : list string :=
  [ "long+talks"; "random"; "camps+and+arts"; "warnings" ].

(** The downloader as [__init__] leaves it. *)
Definition new_downloader (files : gmap (string * string) string) (dirs : gset string)
  : Downloader :=
  {| backup_files := files;
     backup_dirs := dirs ∪ list_to_set categories;
     stats := {| total_files := 0; downloaded := 0; skipped := 0; failed := 0;
                 total_size := 0 |};
     requests := [] |}.

Definition set_backup_files (f : gmap (string * string) string) (st : Downloader)
  : Downloader :=
  {| backup_files := f; backup_dirs := backup_dirs st; stats := stats st;
     requests := requests st |}.

Definition set_stats (s : Stats) (st : Downloader) : Downloader :=
  {| backup_files := backup_files st; backup_dirs := backup_dirs st; stats := s;
     requests := requests st |}.

Definition record_request (url : string) (st : Downloader) : Downloader :=
  {| backup_files := backup_files st; backup_dirs := backup_dirs st; stats := stats st;
     requests := requests st ++ [url] |}.

Definition count_skipped (size : nat) (s : Stats) : Stats :=
  {| total_files := total_files s; downloaded := downloaded s;
     skipped := skipped s + 1; failed := failed s; total_size := total_size s + size |}.

Definition count_downloaded (size : nat) (s : Stats) : Stats :=
  {| total_files := total_files s; downloaded := downloaded s + 1;
     skipped := skipped s; failed := failed s; total_size := total_size s + size |}.

Definition count_failed (s : Stats) : Stats :=
  {| total_files := total_files s; downloaded := downloaded s;
     skipped := skipped s; failed := failed s + 1; total_size := total_size s |}.

Definition set_total_files (n : nat) (s : Stats) : Stats :=
  {| total_files := n; downloaded := downloaded s;
     skipped := skipped s; failed := failed s; total_size := total_size s |}.

(** [url.split('/')[-2] if len(url.split('/')) > 1 else 'unknown'] *)
Definition category_of (url : string) : string :=
  let parts := split "/" url in
  if (1 <? length parts)%nat
  then default EmptyString (rev parts !! 1)
  else "unknown".

(** Where [self.backup_dir / category / filename] points, the directories
    of the backup being [dirs].  A file at the top of the backup has the
    empty category in its key. *)
Inductive BackupLocation : Type :=
| BackupEntry (key : string * string)
| BackupDirectory
| BackupUnreachable
| BackupElsewhere.

Definition locate_backup (dirs : gset string) (category filename : string)
  : BackupLocation :=
  if has_char nul category || has_char nul filename then BackupUnreachable
  else if startswith "/" filename then BackupElsewhere
  else
    let parts := components category ++ components filename in
    if bool_decide (".." ∈ parts) then BackupElsewhere
    else match parts with
         | [] => BackupDirectory
         | [entry] =>
             if bool_decide (entry ∈ dirs) then BackupDirectory
             else BackupEntry (EmptyString, entry)
         | [dir; entry] => BackupEntry (dir, entry)
         | _ => BackupUnreachable
         end.

Section Backup.

Variable unquote : string -> string.
Variable http_get : nat -> string -> HttpResponse.

(** What is at a path that leaves the backup directory, and the size that
    [stat] gives for a directory; the path is given from the backup
    directory. *)
Variable elsewhere : nat -> string -> PathState.
Variable directory_size : string -> nat.

(** The [local_path] of [get_file_info], as the key of a file. *)
Definition local_path (url : string) : string * string :=
  (category_of url, unquote (last_segment url)).

(** The same path as a text. *)
Definition local_path_text (url : string) : string :=
  category_of url +:+ "/" +:+ unquote (last_segment url).

Definition place_of (st : Downloader) (url : string) : BackupLocation :=
  locate_backup (backup_dirs st) (category_of url) (unquote (last_segment url)).

(** [local_path.exists()] with, when it holds, [local_path.stat().st_size]. *)
Definition found_size (st : Downloader) (url : string) : option nat :=
  match place_of st url with
  | BackupEntry key => len <$> backup_files st !! key
  | BackupDirectory => Some (directory_size (local_path_text url))
  | BackupUnreachable => None
  | BackupElsewhere =>
      match elsewhere (length (requests st)) (local_path_text url) with
      | Present size => Some size
      | _ => None
      end
  end.

(** Where [open(local_path, 'wb')] writes: [None] when it raises, and
    otherwise the key of the file, if the file is one of the backup. *)
Definition write_target (st : Downloader) (url : string)
  : option (option (string * string)) :=
  match place_of st url with
  | BackupEntry (dir, entry) =>
      if bool_decide (dir = EmptyString \/ dir ∈ backup_dirs st)
      then Some (Some (dir, entry)) else None
  | BackupElsewhere =>
      match elsewhere (length (requests st)) (local_path_text url) with
      | Writable => Some None
      | _ => None
      end
  | _ => None
  end.

Definition write_file (key : option (string * string)) (bytes : string)
  (st : Downloader) : Downloader :=
  match key with
  | Some key => set_backup_files (<[key := bytes]> (backup_files st)) st
  | None => st
  end.

(** [local_path.unlink()] *)
Definition unlink_file (key : option (string * string)) (st : Downloader)
  : Downloader :=
  match key with
  | Some key => set_backup_files (delete key (backup_files st)) st
  | None => st
  end.

(** The [except] clause of [download_file]: the file, if it was made, is
    deleted, and the failure is counted. *)
Definition download_failed (key : option (string * string)) (st : Downloader)
  : bool * Downloader :=
  let st := unlink_file key st in
  (false, set_stats (count_failed (stats st)) st).

(** [download_file] *)
Definition download_file (st : Downloader) (url : string) : bool * Downloader :=
  match found_size st url with
  | Some file_size => (true, set_stats (count_skipped file_size (stats st)) st)
  | None =>
      let target := write_target st url in
      let response := http_get (length (requests st)) url in
      let st := record_request url st in
      if get_raises response then download_failed None st
      else
        match content_length response with
        | Some None => download_failed None st        (* [int] raises *)
        | header =>
            let declared : Z :=
              match header with Some (Some n) => n | _ => 0%Z end in
            match target with
            | None => download_failed None st         (* [open] raises *)
            | Some key =>
                let st := write_file key (written (chunks response)) st in
                if stream_raises response then download_failed key st
                else
                  let actual_size := len (written (chunks response)) in
                  if (0 <? declared)%Z && negb (Z.of_nat actual_size =? declared)%Z then
                    (false, unlink_file key st)
                  else
                    (true, set_stats (count_downloaded actual_size (stats st)) st)
            end
        end
  end.

(** The download loop of [process_html_files]. *)
Fixpoint download_all (urls : list string) (st : Downloader) : Downloader :=
  match urls with
  | [] => st
  | url :: rest => download_all rest (snd (download_file st url))
  end.

(** [process_html_files] on the documents of the working directory. *)
Definition process_html_files (docs : gmap string string) (html_files : list string)
  (st : Downloader) : Downloader :=
  let all_urls : gset string :=
    foldl (fun acc html_file =>
             match docs !! html_file with
             | Some stored => acc ∪ list_to_set (extract_audio_urls (read_text stored))
             | None => acc
             end) ∅ html_files in
  let all_urls := merge_sort String.le (elements all_urls) in
  let st := set_stats (set_total_files (length all_urls) (stats st)) st in
  download_all all_urls st.

End Backup.

(** ** Notions used in the statements *)

(** How one download moves the counters: a success is counted once as
    downloaded or skipped, a failure at most once as failed. *)
Definition counted_once (ok : bool) (before after : Stats) : Prop :=
  (if ok
   then downloaded after + skipped after = downloaded before + skipped before + 1 /\
        downloaded before <= downloaded after /\
        skipped before <= skipped after /\
        failed after = failed before
   else downloaded after = downloaded before /\
        skipped after = skipped before /\
        failed before <= failed after <= failed before + 1) /\
  total_files after = total_files before.


(** A list item of the URL at the start of a text: the opening
    [data-audio="URL">], a text that is not empty and holds no [<], the
    closing [</li>], and the rest. *)
Definition item_at (url text rest s : string) : Prop :=
  text <> EmptyString /\ has_char "<" text = false /\
  s = Re.li_open url +:+ text +:+ "</li>" +:+ rest.

(** [out] is [s] in which every list item of the URL, found from left to
    right, has got the title for its text, every other character being
    kept. *)
Inductive retitled (url title : string) : string -> string -> Prop :=
| retitled_end : retitled url title EmptyString EmptyString
| retitled_keep c s out :
    (forall text rest, ~ item_at url text rest (String c s)) ->
    retitled url title s out ->
    retitled url title (String c s) (String c out)
| retitled_item text s out :
    text <> EmptyString ->
    has_char "<" text = false ->
    retitled url title s out ->
    retitled url title
      (Re.li_open url +:+ text +:+ "</li>" +:+ s)
      (Re.li_open url +:+ title +:+ "</li>" +:+ out).

(** ** The titles-only workflow of [LocalAudioTranscriber] *)

(** One round of the loop of [load_existing_transcriptions]: a transcript
    file is recorded when the audio file of its name is there. *)
Definition load_transcript_file (st : Transcriber) (entry : string * string)
  : Transcriber :=
  let '(name, content) := entry in
  let audio_filename := replace ".txt" ".mp3" name in
  match out_files st !! audio_filename with
  | Some _ =>
      set_transcriptions
        (PyDict.set audio_filename
           {| tr_transcript := strip (read_text content);
              tr_audio_path := output_path audio_filename;
              tr_transcript_path := output_path name;
              tr_title := None |}
           (transcriptions st)) st
  | None => st
  end.

Section TitlesOnly.

Variable scandir : gmap string string -> list (string * string).
Variable unquote : string -> string.
Variable ollama : nat -> string -> string -> OllamaReply.
Variable json_dump : list (string * TranscriptRecord) -> string.

(** [self.output_dir.glob("*.txt")] *)
Definition transcript_files (st : Transcriber) : list (string * string) :=
  filter (fun entry => endswith ".txt" (fst entry) = true) (scandir (out_files st)).

(** [load_existing_transcriptions] *)
Definition load_existing_transcriptions (st : Transcriber) : Transcriber :=
  foldl load_transcript_file st (transcript_files st).

(** The loop of [process_html_file_titles_only]. *)
Fixpoint title_urls (urls : list string) (url_to_title : list (string * string))
  (st : Transcriber) : list (string * string) * Transcriber :=
  match urls with
  | [] => (url_to_title, st)
  | url :: rest =>
      let filename := unquote (last_segment url) in
      match PyDict.get filename (transcriptions st) with
      | Some info =>
          let '(title, st) :=
            generate_title_from_transcript scandir ollama st (tr_transcript info) filename in
          let st :=
            match PyDict.get filename (transcriptions st) with
            | Some info =>
                set_transcriptions
                  (PyDict.set filename
                     {| tr_transcript := tr_transcript info;
                        tr_audio_path := tr_audio_path info;
                        tr_transcript_path := tr_transcript_path info;
                        tr_title := Some title |}
                     (transcriptions st)) st
            | None => st
            end in
          title_urls rest (PyDict.set url title url_to_title) st
      | None => title_urls rest url_to_title st
      end
  end.

(** [process_html_file_titles_only]; [None] when the document cannot be
    opened. *)
Definition process_html_file_titles_only (st : Transcriber) (html_file : string)
  : option (list (string * string) * Transcriber) :=
  stored ← cwd_files st !! html_file;
  Some (title_urls (extract_audio_urls (read_text stored)) [] st).

(** [run_titles_only_workflow].  When [index.html] is missing the last
    [print] reads [url_to_title], which was never bound, and raises. *)
Definition run_titles_only_workflow (st : Transcriber) : Outcome * Transcriber :=
  let st := load_existing_transcriptions st in
  match transcriptions st with
  | [] => (Completed, st)
  | _ :: _ =>
      let html_file := "index.html" in
      match process_html_file_titles_only st html_file with
      | Some (url_to_title, st) =>
          match update_html_file st html_file url_to_title with
          | (Completed, st) => (Completed, save_transcriptions scandir ollama json_dump st)
          | (Raised, st) => (Raised, st)
          end
      | None => (Raised, save_transcriptions scandir ollama json_dump st)
      end
  end.

End TitlesOnly.

(** An entry of the dictionary that has its title. *)
Definition titled (info : TranscriptRecord) : Prop := is_Some (tr_title info).

(** Between [st] and [st'] nothing was called but models. *)
Definition only_models_called (st st' : Transcriber) : Prop :=
  exists models, events st' = events st ++ (EvOllama <$> models).


(** ** Concrete worlds

    The directory listings, capabilities and files used in the examples. *)

(** A directory listed in the order of its map. *)
Definition scandir_map (m : gmap string string) : list (string * string) :=
  map_to_list m.

Definition unquote_plain (s : string) : string := s.

Definition ollama_down : nat -> string -> string -> OllamaReply :=
  fun _ _ _ => PostRaises.

Definition ollama_refusing : nat -> string -> string -> OllamaReply :=
  fun _ _ _ => PostStatus 200 (Some "I'm sorry, but I cannot create a title for this.").

(** A model that answers with two quote characters and nothing else. *)
Definition ollama_quotes : nat -> string -> string -> OllamaReply :=
  fun _ _ _ => PostStatus 200 (Some "''").

Definition ollama_long : nat -> string -> string -> OllamaReply :=
  fun _ _ _ =>
    PostStatus 200
      (Some "'The Night the Whole Camp Sang Along to a Broken Radio at Dawn'").

Definition secret_mp3 : string := "01+secret.mp3".

Definition secret_transcript : string :=
  "I can not believe this happened. It was wild.".

(** A title file edited by hand, its title indented by one space. *)
Definition indented_title_file : string := " My Title" +:+ nl.

Definition hand_edited : Transcriber :=
  new_transcriber {[ "01+secret.title" := indented_title_file ]} ∅.

(** The title file [a.title], which is that of [a.mp3.mp3] and of [a.mp3]. *)
Definition doubled_suffix : Transcriber :=
  new_transcriber {[ "a.title" := "Pinned By Hand" ]} ∅.

Definition nothing_on_disk : Transcriber := new_transcriber ∅ ∅.

Definition blank_title : string := " ".
Definition indented_title : string := " A Secret".

Definition secret_url : string := Re.audio_host +:+ "random/01+secret.mp3".
Definition other_url : string := Re.audio_host +:+ "random/02+other.mp3".

(** A document with two list items. *)
Definition index_html : string :=
  "<ul><li " +:+ Re.li_open secret_url +:+ "old</li><li " +:+
  Re.li_open other_url +:+ "other</li></ul>".

Definition index_html_patched : string :=
  "<ul><li " +:+ Re.li_open secret_url +:+ "A Secret Confession</li><li " +:+
  Re.li_open other_url +:+ "other</li></ul>".

(** A document that mentions no audio file. *)
Definition plain_html : string := "<p>nothing to hear</p>".

(** A document stored with the line ends CR LF. *)
Definition crlf_html : string :=
  "<p>one</p>" +:+ char cr +:+ nl +:+ "<p>two</p>" +:+ char cr +:+ nl.

(** A title with a backslash in it. *)
Definition backslash_title : string := "AC" +:+ char backslash +:+ "DC Night".

Definition site (content : string) : gmap string string :=
  {[ "index.html" := content ]}.

(** A response that declares ten bytes and delivers three. *)
Definition http_short : nat -> string -> HttpResponse :=
  fun _ _ =>
    {| get_raises := false; content_length := Some (Some 10%Z);
       chunks := ["abc"]; stream_raises := false |}.

(** A response whose stream breaks after three bytes. *)
Definition http_broken : nat -> string -> HttpResponse :=
  fun _ _ =>
    {| get_raises := false; content_length := Some (Some 10%Z);
       chunks := ["abc"]; stream_raises := true |}.

Definition empty_backup : Downloader := new_downloader ∅ ∅.

(** A server that delivers seven bytes for every URL. *)
Definition http_ok : nat -> string -> HttpResponse :=
  fun _ _ =>
    {| get_raises := false; content_length := None;
       chunks := ["ID3"; "data"]; stream_raises := false |}.

(** A Whisper model that hears two segments in every file. *)
Definition whisper_fixed : nat -> string -> option string -> option (list string) :=
  fun _ _ _ => Some ["Hello world."; "It was wild."].

Definition json_plain : list (string * TranscriptRecord) -> string :=
  fun _ => "{}".

(** A system on which nothing is found and nothing can be written outside
    the directories of the tools. *)
Definition nothing_elsewhere : nat -> string -> PathState :=
  fun _ _ => Closed.

Definition directory_4096 : string -> nat := fun _ => 4096.

Definition first_run : Outcome * Transcriber :=
  run_complete_workflow scandir_map unquote_plain http_ok whisper_fixed ollama_down
    nothing_elsewhere json_plain (new_transcriber ∅ (site index_html)).

Definition second_run : Outcome * Transcriber :=
  run_complete_workflow scandir_map unquote_plain http_ok whisper_fixed ollama_down
    nothing_elsewhere json_plain (restart first_run.2).

(** A directory with an audio file and a transcript of it made earlier. *)
Definition transcribed_earlier : Transcriber :=
  new_transcriber
    {[ "01+secret.mp3" := "ID3data"; "01+secret.txt" := "An earlier transcript." ]} ∅.

(** A backup that holds one file already. *)
Definition one_file_backup : Downloader :=
  new_downloader {[ ("random", "01+secret.mp3") := "ID3data" ]} ∅.

(** * Properties *)

(** Closed goals are settled by evaluation. *)
Ltac evaluate := vm_compute; first [ reflexivity | discriminate | exact I | lia ].


(** ** Strings *)

Section StringFacts.

Implicit Types s t p : string.

Lemma app_nil_str s : EmptyString +:+ s = s.
Proof. reflexivity. Qed.

Lemma app_cons_str c s t : String c s +:+ t = String c (s +:+ t).
Proof. reflexivity. Qed.

Lemma len_cons c s : len (String c s) = S (len s).
Proof. reflexivity. Qed.

Lemma app_empty_r s : s +:+ EmptyString = s.
Proof. induction s as [|c s IH]; [done|]. by rewrite app_cons_str, IH. Qed.

Lemma app_assoc_str s t p : (s +:+ t) +:+ p = s +:+ t +:+ p.
Proof. induction s as [|c s IH]; [done|]. by rewrite !app_cons_str, IH. Qed.

Lemma len_app s t : len (s +:+ t) = len s + len t.
Proof.
  induction s as [|c s IH]; [done|].
  by rewrite app_cons_str, !len_cons, IH.
Qed.

Lemma len_take n s : len (take n s) = n `min` len s.
Proof.
  revert s. induction n as [|n IH]; intros [|c s]; simpl; try done.
  by rewrite !len_cons, IH.
Qed.

Lemma drop_app_len s t : drop (len s) (s +:+ t) = t.
Proof.
  induction s as [|c s IH]; [by destruct t|].
  by rewrite app_cons_str, len_cons.
Qed.

Lemma take_app_len s t : take (len s) (s +:+ t) = s.
Proof.
  induction s as [|c s IH]; [by destruct t|].
  rewrite app_cons_str, len_cons. simpl. by rewrite IH.
Qed.

Lemma take_drop n s : take n s +:+ drop n s = s.
Proof.
  revert s. induction n as [|n IH]; intros [|c s]; simpl; try done.
  by rewrite app_cons_str, IH.
Qed.

Lemma len_drop n s : len (drop n s) = len s - n.
Proof.
  revert s. induction n as [|n IH]; intros [|c s]; simpl; try done.
Qed.

Lemma len_0 s : len s = 0 -> s = EmptyString.
Proof. by destruct s. Qed.

Lemma startswith_app p s : startswith p (p +:+ s) = true.
Proof.
  induction p as [|c p IH]; [done|].
  rewrite app_cons_str. simpl. by rewrite Ascii.eqb_refl.
Qed.

Lemma startswith_split p s : startswith p s = true -> s = p +:+ drop (len p) s.
Proof.
  revert s. induction p as [|c p IH]; intros s H.
  - by destruct s.
  - destruct s as [|b s]; [done|]. simpl in H.
    destruct (Ascii.eqb_spec c b) as [->|]; [|done].
    rewrite app_cons_str, len_cons. simpl. f_equal. by apply IH.
Qed.

Lemma endswith_app s p : endswith p (s +:+ p) = true.
Proof.
  unfold endswith. rewrite len_app.
  replace (len s + len p - len p) with (len s) by lia.
  rewrite drop_app_len, String.eqb_refl, andb_true_r.
  apply Nat.leb_le. lia.
Qed.

Lemma endswith_split p s : endswith p s = true -> s = take (len s - len p) s +:+ p.
Proof.
  unfold endswith. intros [_ H%String.eqb_eq]%andb_true_iff.
  set (n := len s - len p) in *. rewrite <- H. by rewrite take_drop.
Qed.

Lemma app_inv_tail_str s t p : s +:+ p = t +:+ p -> s = t.
Proof.
  revert t. induction s as [|c s IH]; intros [|d t] H; try done.
  - apply (f_equal len) in H.
    rewrite app_nil_str, app_cons_str, len_cons, len_app in H. lia.
  - apply (f_equal len) in H.
    rewrite app_nil_str, app_cons_str, len_cons, len_app in H. lia.
  - rewrite !app_cons_str in H. injection H as -> H. f_equal. by apply IH.
Qed.

Lemma has_char_app c s t : has_char c (s +:+ t) = has_char c s || has_char c t.
Proof.
  induction s as [|a s IH]; [done|].
  rewrite app_cons_str. simpl. rewrite IH. by rewrite orb_assoc.
Qed.

(** *** Truncation *)

Lemma truncate_title_long s :
  50 < len s ->
  truncate_title s = take 47 s +:+ "..." /\
  len (truncate_title s) = 50 /\
  endswith "..." (truncate_title s) = true.
Proof.
  intros H. unfold truncate_title.
  destruct (Nat.ltb_spec 50 (len s)); [|lia].
  split; [done|]. split; [|apply endswith_app].
  rewrite len_app, len_take. change (len "...") with 3. lia.
Qed.

Lemma truncate_title_short s : len s <= 50 -> truncate_title s = s.
Proof.
  intros H. unfold truncate_title.
  destruct (Nat.ltb_spec 50 (len s)); [lia|done].
Qed.

Lemma len_truncate_title s : len (truncate_title s) <= 50.
Proof.
  destruct (Nat.le_gt_cases (len s) 50) as [H|H].
  - by rewrite truncate_title_short.
  - destruct (truncate_title_long s H) as (_ & -> & _). done.
Qed.

Lemma truncate_title_empty s : truncate_title s = EmptyString <-> s = EmptyString.
Proof.
  split; [|by intros ->].
  destruct (Nat.le_gt_cases (len s) 50) as [H|H].
  - by rewrite truncate_title_short.
  - destruct (truncate_title_long s H) as (_ & E & _).
    intros E'. rewrite E' in E. done.
Qed.

(** *** Characters that a text holds *)

Lemma has_char_take c n s : has_char c s = false -> has_char c (take n s) = false.
Proof.
  revert s. induction n as [|n IH]; intros [|a s]; simpl; try done.
  intros [Ha Hs]%orb_false_iff. by rewrite Ha, IH.
Qed.

Lemma has_char_replace_from c old new skip s :
  has_char c s = false -> has_char c new = false ->
  has_char c (replace_from old new skip s) = false.
Proof.
  intros Hs Hn. revert skip. induction s as [|a s IH]; intros skip; [done|].
  simpl in Hs. apply orb_false_iff in Hs as [Ha Hs]. simpl.
  destruct skip as [|k]; [|by apply IH].
  destruct (startswith old (String a s)).
  - by rewrite has_char_app, Hn, IH.
  - simpl. by rewrite Ha, IH.
Qed.

Lemma has_char_replace c old new s :
  old <> EmptyString ->
  has_char c s = false -> has_char c new = false ->
  has_char c (replace old new s) = false.
Proof.
  intros Ho Hs Hn. destruct old; [done|]. by apply has_char_replace_from.
Qed.

(** Replacing a character removes it. *)
Lemma has_char_replace_char c new s :
  has_char c new = false -> has_char c (replace (char c) new s) = false.
Proof.
  intros Hn. unfold replace, char.
  induction s as [|a s IH]; [done|]. simpl.
  destruct (Ascii.eqb c a) eqn:E.
  - by rewrite has_char_app, Hn, IH.
  - simpl. rewrite Ascii.eqb_sym, E. exact IH.
Qed.

Lemma has_char_lstrip c s : has_char c s = false -> has_char c (lstrip s) = false.
Proof.
  induction s as [|a s IH]; [done|]. simpl.
  intros [Ha Hs]%orb_false_iff.
  destruct (isspace a); [by apply IH|]. simpl. by rewrite Ha.
Qed.

Lemma has_char_rstrip c s : has_char c s = false -> has_char c (rstrip s) = false.
Proof.
  induction s as [|a s IH]; [done|]. simpl.
  intros [Ha Hs]%orb_false_iff. specialize (IH Hs).
  destruct (rstrip s) as [|b r].
  - destruct (isspace a); [done|]. simpl. by rewrite Ha.
  - simpl. simpl in IH. by rewrite Ha, IH.
Qed.

Lemma has_char_strip c s : has_char c s = false -> has_char c (strip s) = false.
Proof. intros H. by apply has_char_lstrip, has_char_rstrip. Qed.

Lemma has_char_truncate_title c s :
  has_char c s = false -> c <> "."%char -> has_char c (truncate_title s) = false.
Proof.
  intros Hs Hc. unfold truncate_title. destruct (50 <? len s); [|done].
  rewrite has_char_app, has_char_take by done.
  assert (Ascii.eqb "." c = false) as E by (apply Ascii.eqb_neq; congruence).
  change (has_char c "...")
    with (Ascii.eqb "." c || (Ascii.eqb "." c || (Ascii.eqb "." c || false))).
  by rewrite E.
Qed.

Lemma last_char_eq s t a b : s +:+ char a = t +:+ char b -> a = b.
Proof.
  revert t. induction s as [|c s IH]; intros [|d t] H.
  - by injection H.
  - rewrite app_nil_str, app_cons_str in H. injection H as _ H.
    apply (f_equal len) in H. rewrite len_app in H.
    change (len EmptyString) with 0 in H. change (len (char b)) with 1 in H. lia.
  - rewrite app_nil_str, app_cons_str in H. injection H as _ H.
    apply (f_equal len) in H. rewrite len_app in H.
    change (len EmptyString) with 0 in H. change (len (char a)) with 1 in H. lia.
  - rewrite !app_cons_str in H. injection H as _ H. by eapply IH.
Qed.

(** *** White space at the ends *)

Lemma lstrip_lstrip s : lstrip (lstrip s) = lstrip s.
Proof.
  induction s as [|c s IH]; [done|]. cbn [lstrip].
  destruct (isspace c) eqn:E; [done|]. cbn [lstrip]. by rewrite E.
Qed.

Lemma rstrip_rstrip s : rstrip (rstrip s) = rstrip s.
Proof.
  induction s as [|c s IH]; [done|]. cbn [rstrip].
  destruct (rstrip s) as [|d r] eqn:E.
  - destruct (isspace c) eqn:Hc; [done|]. unfold char. cbn [rstrip]. by rewrite Hc.
  - cbn [rstrip]. cbn [rstrip] in IH. by rewrite IH.
Qed.

(** Taking the white space from the left of a text that has none at its
    right leaves none at its right. *)
Lemma rstrip_lstrip s : rstrip s = s -> rstrip (lstrip s) = lstrip s.
Proof.
  induction s as [|c s IH]; [done|]. intros H. cbn [lstrip].
  destruct (isspace c) eqn:Hc; [|done].
  apply IH. cbn [rstrip] in H.
  destruct (rstrip s) as [|d r] eqn:E.
  - by rewrite Hc in H.
  - by injection H.
Qed.

Lemma strip_strip s : strip (strip s) = strip s.
Proof.
  unfold strip. rewrite rstrip_lstrip by apply rstrip_rstrip. apply lstrip_lstrip.
Qed.

(** *** Line ends *)

Lemma universal_newlines_app s t :
  has_char cr s = false ->
  universal_newlines (s +:+ t) = s +:+ universal_newlines t.
Proof.
  induction s as [|c s IH]; [done|]. cbn [has_char].
  intros [Hc Hs]%orb_false_iff. rewrite !app_cons_str. cbn [universal_newlines].
  by rewrite Hc, IH.
Qed.

(** A text without CR is read as it is stored. *)
Lemma read_text_plain s : has_char cr s = false -> read_text s = s.
Proof.
  intros H. unfold read_text. rewrite <- (app_empty_r s) at 1.
  rewrite universal_newlines_app by done. cbn [universal_newlines].
  apply app_empty_r.
Qed.

Lemma universal_newlines_no_cr s : has_char cr (universal_newlines s) = false.
Proof.
  remember (len s) as n eqn:Hn. revert s Hn.
  induction n as [n IH] using lt_wf_ind. intros s ->.
  destruct s as [|c r]; [done|]. cbn [universal_newlines].
  destruct (Ascii.eqb c cr) eqn:Hc.
  - cbn [has_char]. change (Ascii.eqb newline cr) with false. cbn [orb].
    destruct r as [|d r']; [done|].
    destruct (Ascii.eqb d newline).
    + apply (IH (len r')); [rewrite !len_cons; lia|done].
    + apply (IH (len (String d r'))); [rewrite !len_cons; lia|done].
  - cbn [has_char]. rewrite Hc. cbn [orb].
    apply (IH (len r)); [rewrite len_cons; lia|done].
Qed.

End StringFacts.

(** ** Title resolution *)

Section ResolverFacts.

Variable scandir : gmap string string -> list (string * string).
Variable ollama : nat -> string -> string -> OllamaReply.

Implicit Types st : Transcriber.

Lemma qualifies_nonblank line : qualifies line = true -> strip line <> EmptyString.
Proof.
  unfold qualifies. intros [[H _]%andb_true_iff _]%andb_true_iff.
  apply negb_true_iff in H. by apply String.eqb_neq.
Qed.

Lemma first_qualifying_line_qualifies content line :
  first_qualifying_line content = Some line -> qualifies line = true.
Proof. unfold first_qualifying_line. intros H. by apply find_some in H as [_ ?]. Qed.

(** A human title is never empty. *)
Lemma load_title_file_nonempty (titles : gmap string string) entry :
  map_Forall (fun _ title => title <> EmptyString) titles ->
  map_Forall (fun _ title => title <> EmptyString) (load_title_file titles entry).
Proof.
  intros H. unfold load_title_file.
  destruct (first_qualifying_line entry.2) as [line|] eqn:E; [|done].
  apply map_Forall_insert_2; [|done].
  by eapply qualifies_nonblank, first_qualifying_line_qualifies.
Qed.

Lemma load_human_titles_nonempty st filename title :
  load_human_titles scandir st !! filename = Some title -> title <> EmptyString.
Proof.
  unfold load_human_titles.
  assert (forall l (acc : gmap string string),
    map_Forall (fun _ t => t <> EmptyString) acc ->
    map_Forall (fun _ t => t <> EmptyString) (foldl load_title_file acc l)) as H.
  { induction l as [|e l IH]; intros acc Hacc; [done|].
    simpl. by apply IH, load_title_file_nonempty. }
  intros Hl. eapply (H _ ∅); [|exact Hl]. apply map_Forall_empty.
Qed.

(** A model that errors or refuses only adds its call to the history. *)
Lemma try_models_skip model rest prompt transcript filename st :
  falls_through (ollama (length (events st)) model prompt) = true ->
  try_models ollama (model :: rest) prompt transcript filename st =
  try_models ollama rest prompt transcript filename (record_event (EvOllama model) st).
Proof.
  intros H. simpl.
  destruct (ollama (length (events st)) model prompt) as [|code [response|]]; [done| |done].
  simpl in H. destruct (code =? 200)%Z; [|done]. by rewrite H.
Qed.

Lemma try_models_all_fall models prompt transcript filename st :
  (forall n model, model ∈ models -> falls_through (ollama n model prompt) = true) ->
  exists st',
    try_models ollama models prompt transcript filename st = (None, st') /\
    out_files st' = out_files st /\
    cwd_files st' = cwd_files st /\
    transcriptions st' = transcriptions st /\
    events st' = events st ++ (EvOllama <$> models).
Proof.
  revert st. induction models as [|model rest IH]; intros st H.
  - exists st. simpl. by rewrite app_nil_r.
  - rewrite try_models_skip by (apply H; left).
    destruct (IH (record_event (EvOllama model) st)) as (st' & -> & ? & ? & ? & E).
    { intros n m Hm. apply H. by right. }
    exists st'. repeat split; try done.
    rewrite E. simpl. by rewrite <- app_assoc.
Qed.

(** An accepted title is the cleaned response of some model, and it is
    written to the title file. *)
Lemma try_models_accepted models prompt transcript filename st title st' :
  try_models ollama models prompt transcript filename st = (Some title, st') ->
  exists response,
    refused (strip response) = false /\
    title = clean_title (strip response) /\
    out_files st' !! title_file_name filename =
      Some (title_file_content filename title transcript).
Proof.
  revert st. induction models as [|model rest IH]; intros st H; [done|].
  simpl in H.
  destruct (ollama (length (events st)) model prompt) as [|code [response|]];
    [by eapply IH| |by eapply IH].
  destruct (code =? 200)%Z; [|by eapply IH].
  destruct (refused (strip response)) eqn:R; [by eapply IH|].
  injection H as <- <-. exists response. repeat split; [done|].
  simpl. apply lookup_insert_eq.
Qed.

Lemma generate_title_override st transcript filename title :
  load_human_titles scandir st !! filename = Some title ->
  generate_title_from_transcript scandir ollama st transcript filename =
  (title, save_title_to_file st filename title transcript).
Proof. intros H. unfold generate_title_from_transcript. by rewrite H. Qed.

Lemma generate_title_fallback st transcript filename :
  load_human_titles scandir st !! filename = None ->
  (forall n model, model ∈ models_to_try ->
     falls_through (ollama n model (prompt_of transcript filename)) = true) ->
  (generate_title_from_transcript scandir ollama st transcript filename).1 =
  extract_first_sentence transcript.
Proof.
  intros Hh Hm. unfold generate_title_from_transcript. rewrite Hh.
  destruct (try_models_all_fall models_to_try (prompt_of transcript filename)
              transcript filename st Hm) as (st' & -> & _).
  done.
Qed.

(** The first piece of [re.split]: the text before the first sentence
    end. *)
Lemma split_sentences_first s :
  exists sentence rest pieces,
    Re.split_sentences s = sentence :: pieces /\
    s = sentence +:+ rest /\
    (forall c, Re.is_sentence_end c = true -> has_char c sentence = false) /\
    (rest = EmptyString \/
     exists c r, rest = String c r /\ Re.is_sentence_end c = true).
Proof.
  unfold Re.split_sentences. induction s as [|a s IH].
  - exists EmptyString, EmptyString, [].
    split; [done|]. split; [done|]. split; [done|]. by left.
  - cbn [Re.split_from]. destruct (Re.is_sentence_end a) eqn:Ha.
    + exists EmptyString, (String a s), (Re.split_from true s).
      split; [done|]. split; [done|]. split; [done|]. right. by exists a, s.
    + destruct IH as (sentence & rest & pieces & E & -> & Hfree & Hrest).
      rewrite E.
      exists (String a sentence), rest, pieces.
      split; [done|]. split; [done|]. split; [|done].
      intros c Hc. cbn [has_char]. rewrite (Hfree c Hc), orb_false_r.
      apply Ascii.eqb_neq. intros ->. congruence.
Qed.

(** The model that answers first with a text that is no refusal gives the
    title, and the models after it are not called. *)
Lemma try_models_first_accepted before model after prompt transcript filename st response :
  (forall n m, m ∈ before -> falls_through (ollama n m prompt) = true) ->
  ollama (length (events st) + length before) model prompt
    = PostStatus 200 (Some response) ->
  refused (strip response) = false ->
  let result :=
    try_models ollama (before ++ model :: after) prompt transcript filename st in
  result.1 = Some (clean_title (strip response)) /\
  events result.2 = events st ++ (EvOllama <$> before ++ [model]) /\
  out_files result.2 =
    <[title_file_name filename :=
        title_file_content filename (clean_title (strip response)) transcript]>
      (out_files st) /\
  cwd_files result.2 = cwd_files st /\
  transcriptions result.2 = transcriptions st.
Proof.
  revert st. induction before as [|m before IH]; intros st Hfall Hreply Hok.
  - cbn [app length] in *. rewrite Nat.add_0_r in Hreply.
    cbn [try_models]. rewrite Hreply. cbn [Z.eqb Pos.eqb]. rewrite Hok.
    cbn [fst snd events save_title_to_file set_out_files record_event out_files
         cwd_files transcriptions fmap list_fmap]. done.
  - cbn [app]. cbv zeta. rewrite try_models_skip by (apply Hfall; left).
    destruct (IH (record_event (EvOllama m) st)) as (H1 & H2 & H3 & H4 & H5).
    + intros n m' Hm'. apply Hfall. by right.
    + cbn [events record_event]. rewrite length_app. cbn [length].
      rewrite <- Hreply. f_equal. cbn [length]. lia.
    + done.
    + cbv zeta in H1, H2, H3, H4, H5. split; [done|].
      split; [|done].
      rewrite H2. cbn [events record_event]. by rewrite <- app_assoc.
Qed.

(** C3. When no human title exists and every model errors, answers with
    another status than 200 or refuses, the title is the heuristic one:
    the text of the stripped transcript before its first [.], [!] or [?],
    stripped, with every newline replaced by a space and then every pair
    of spaces, taken from left to right, replaced by one space, cut to at
    most 50 characters; for the transcript of the example it is
    "I can not believe this happened". *)
Theorem refusal_fallthrough st transcript filename :
  load_human_titles scandir st !! filename = None ->
  (forall n model, model ∈ models_to_try ->
     falls_through (ollama n model (prompt_of transcript filename)) = true) ->
  let title := (generate_title_from_transcript scandir ollama st transcript filename).1 in
  (exists sentence rest,
     strip transcript = sentence +:+ rest /\
     (forall c, Re.is_sentence_end c = true -> has_char c sentence = false) /\
     (rest = EmptyString \/
      exists c r, rest = String c r /\ Re.is_sentence_end c = true) /\
     title = truncate_title
               (replace "  " " " (replace (char newline) " " (strip sentence)))) /\
  len title <= 50 /\
  (transcript = "I can not believe this happened. It was wild." ->
   title = "I can not believe this happened").
Proof.
  intros Hh Hm. cbv zeta.
  rewrite (generate_title_fallback st transcript filename Hh Hm).
  split; [|split; [apply len_truncate_title|by intros ->]].
  destruct (split_sentences_first (strip transcript))
    as (sentence & rest & pieces & Hsplit & Htext & Hfree & Hrest).
  exists sentence, rest. split; [done|]. split; [done|]. split; [done|].
  unfold extract_first_sentence, first_sentence_text. by rewrite Hsplit.
Qed.

(** C4. A title that is generated or heuristic comes from a text: the
    response of the first model that is accepted, stripped and without its
    quotes, or the first sentence when every model falls through.  When
    the text is longer than 50 characters the title is its first 47
    characters followed by "...", of length 50, and otherwise the text
    itself; it is the title written to the title file. *)
Theorem truncation_law st transcript filename text :
  load_human_titles scandir st !! filename = None ->
  ((exists before model after response,
      models_to_try = before ++ model :: after /\
      (forall n m, m ∈ before ->
         falls_through (ollama n m (prompt_of transcript filename)) = true) /\
      ollama (length (events st) + length before) model (prompt_of transcript filename)
        = PostStatus 200 (Some response) /\
      refused (strip response) = false /\
      text = strip_quotes (strip response)) \/
   ((forall n m, m ∈ models_to_try ->
       falls_through (ollama n m (prompt_of transcript filename)) = true) /\
    text = first_sentence_text transcript)) ->
  let result := generate_title_from_transcript scandir ollama st transcript filename in
  (50 < len text ->
     result.1 = take 47 text +:+ "..." /\ len result.1 = 50 /\
     endswith "..." result.1 = true) /\
  (len text <= 50 -> result.1 = text) /\
  out_files result.2 !! title_file_name filename =
    Some (title_file_content filename result.1 transcript).
Proof.
  intros Hh Hsource. cbv zeta. unfold generate_title_from_transcript. rewrite Hh.
  destruct Hsource
    as [(before & model & after & response & -> & Hfall & Hreply & Hok & ->)
       | [Hfall ->]].
  - destruct (try_models_first_accepted before model after
                (prompt_of transcript filename) transcript filename st response
                Hfall Hreply Hok) as (Htitle & _ & Hfile & _).
    cbv zeta in Htitle, Hfile.
    destruct (try_models ollama (before ++ model :: after)
                (prompt_of transcript filename) transcript filename st)
      as [[title|] st']; cbn [fst snd] in *; [|done].
    injection Htitle as ->. unfold clean_title.
    split; [apply truncate_title_long|]. split; [apply truncate_title_short|].
    rewrite Hfile. apply lookup_insert_eq.
  - destruct (try_models_all_fall models_to_try (prompt_of transcript filename)
                transcript filename st Hfall) as (st' & -> & _).
    cbn [fst snd]. unfold extract_first_sentence.
    split; [apply truncate_title_long|]. split; [apply truncate_title_short|].
    apply lookup_insert_eq.
Qed.

End ResolverFacts.

(** ** Human titles *)

Section HumanTitles.

Variable scandir : gmap string string -> list (string * string).
Hypothesis scandir_perm : forall m, scandir m ≡ₚ map_to_list m.

Implicit Types st : Transcriber.

Lemma elem_of_title_files st name content :
  (name, content) ∈ title_files scandir st <->
  endswith ".title" name = true /\ out_files st !! name = Some content.
Proof.
  unfold title_files. rewrite list_elem_of_filter, scandir_perm, elem_of_map_to_list.
  done.
Qed.

(** The entry of a key that a single file of the list leads to. *)
Lemma foldl_load_title_file_lookup l (acc : gmap string string) key name content line :
  (name, content) ∈ l ->
  first_qualifying_line content = Some line ->
  mp3_of_title_file name = key ->
  (forall n c, (n, c) ∈ l -> mp3_of_title_file n = key -> (n, c) = (name, content)) ->
  foldl load_title_file acc l !! key = Some (strip line).
Proof.
  intros Hin Hline Hkey. induction l as [|x l IH] using rev_ind; intros Huniq.
  { by apply elem_of_nil in Hin. }
  rewrite foldl_app. simpl. unfold load_title_file at 1.
  destruct x as [n c]. simpl.
  destruct (decide ((n, c) = (name, content))) as [[= -> ->]|Hne].
  - rewrite Hline, Hkey. apply lookup_insert_eq.
  - assert (mp3_of_title_file n <> key) as Hk.
    { intros Hk. apply Hne, Huniq; [|done]. apply elem_of_app. right. by left. }
    assert (foldl load_title_file acc l !! key = Some (strip line)) as IH'.
    { apply IH.
      - apply elem_of_app in Hin as [?|Hx]; [done|].
        apply list_elem_of_singleton in Hx. by destruct Hne.
      - intros n' c' Hin' ?. apply Huniq; [|done]. apply elem_of_app. by left. }
    destruct (first_qualifying_line c); [|done].
    by rewrite lookup_insert_ne.
Qed.

Lemma endswith_title_file_name filename :
  endswith ".title" (title_file_name filename) = true.
Proof. apply endswith_app. Qed.

Lemma load_human_titles_own st filename content line :
  out_files st !! title_file_name filename = Some content ->
  first_qualifying_line content = Some line ->
  owns_title_file (out_files st) filename ->
  load_human_titles scandir st !! filename = Some (strip line).
Proof.
  intros Hfile Hline [Hback Hown]. unfold load_human_titles.
  apply (foldl_load_title_file_lookup _ _ _ (title_file_name filename) content);
    [|done|done|].
  - apply elem_of_title_files. split; [apply endswith_title_file_name|done].
  - intros n c [Hends Hn]%elem_of_title_files Hk.
    pose proof (map_Forall_lookup_1 _ _ _ _ Hown Hn Hends Hk) as ->.
    rewrite Hfile in Hn. by injection Hn as ->.
Qed.

Lemma owns_title_file_save st filename title transcript :
  owns_title_file (out_files st) filename ->
  owns_title_file (out_files (save_title_to_file st filename title transcript)) filename.
Proof.
  intros [Hback Hown]. split; [done|]. simpl.
  by apply map_Forall_insert_2.
Qed.

(** C2. When the title file of [filename] has a first qualifying line, and
    this file is the only one that leads to [filename], the title is that
    line with the white space at its two ends removed, whatever the
    transcript and the models, and no model is called. *)
Theorem human_override_precedence (ollama : nat -> string -> string -> OllamaReply)
  st transcript filename content line :
  out_files st !! title_file_name filename = Some content ->
  first_qualifying_line content = Some line ->
  owns_title_file (out_files st) filename ->
  let result := generate_title_from_transcript scandir ollama st transcript filename in
  result.1 = strip line /\ events result.2 = events st.
Proof.
  intros Hfile Hline Hown. simpl.
  rewrite (generate_title_override scandir ollama st transcript filename (strip line));
    [done|].
  by eapply load_human_titles_own.
Qed.

End HumanTitles.

(** ** The title file read back *)

Section TitleFile.

Lemma split_line (a rest : string) :
  has_char newline a = false ->
  split newline (a +:+ nl +:+ rest) = a :: split newline rest.
Proof.
  induction a as [|c a IH]; intros H.
  - reflexivity.
  - simpl in H. apply orb_false_iff in H as [Hc Ha].
    rewrite app_cons_str. simpl. rewrite Hc, (IH Ha). done.
Qed.

Lemma split_blank_line (rest : string) :
  split newline (nl +:+ rest) = EmptyString :: split newline rest.
Proof. by apply (split_line EmptyString). Qed.

Lemma qualifies_title t :
  strip t <> EmptyString -> startswith "#" t = false -> startswith "[" t = false ->
  qualifies t = true.
Proof.
  intros H1 H2 H3. unfold qualifies. rewrite H2, H3.
  apply String.eqb_neq in H1. by rewrite H1.
Qed.

(** A character that is no white space stays at the start of a text when
    the text is stripped. *)
Lemma startswith_strip c t :
  isspace c = false -> startswith (char c) t = true ->
  startswith (char c) (strip t) = true.
Proof.
  intros Hc H. destruct t as [|a r]; [done|].
  unfold char in *. cbn [startswith] in H.
  destruct (Ascii.eqb_spec c a) as [<-|]; [|done].
  unfold strip. cbn [rstrip].
  destruct (rstrip r) as [|d r'].
  - rewrite Hc. unfold char. cbn [lstrip]. rewrite Hc. cbn [startswith].
    by rewrite Ascii.eqb_refl.
  - cbn [lstrip]. rewrite Hc. cbn [startswith]. by rewrite Ascii.eqb_refl.
Qed.

(** The first qualifying line of a file written by [save_title_to_file]
    is its title. *)
Lemma first_qualifying_line_saved filename t transcript :
  has_char newline filename = false -> has_char cr filename = false ->
  has_char newline t = false -> has_char cr t = false ->
  strip t <> EmptyString ->
  startswith "#" (strip t) = false -> startswith "[" (strip t) = false ->
  first_qualifying_line (title_file_content filename t transcript) = Some t.
Proof.
  intros Hf Hfc Ht Htc H1 H2 H3.
  assert (startswith "#" t = false) as H2'.
  { destruct (startswith "#" t) eqn:E; [|done].
    apply (startswith_strip "#") in E; [|done]. unfold char in E. congruence. }
  assert (startswith "[" t = false) as H3'.
  { destruct (startswith "[" t) eqn:E; [|done].
    apply (startswith_strip "[") in E; [|done]. unfold char in E. congruence. }
  unfold first_qualifying_line, title_file_content, read_text.
  rewrite (universal_newlines_app "# Title for ") by done.
  rewrite (universal_newlines_app filename) by done.
  rewrite (universal_newlines_app nl) by done.
  rewrite (universal_newlines_app nl) by done.
  rewrite (universal_newlines_app "## Current Title (from first sentence):") by done.
  rewrite (universal_newlines_app nl) by done.
  rewrite (universal_newlines_app t) by done.
  rewrite (universal_newlines_app nl) by done.
  rewrite <- (app_assoc_str "# Title for " filename).
  rewrite split_line by (by rewrite has_char_app, Hf).
  rewrite split_blank_line.
  rewrite (split_line "## Current Title (from first sentence):") by done.
  rewrite (split_line t) by done.
  simpl.
  assert (qualifies ("# Title for " +:+ filename) = false) as ->.
  { unfold qualifies.
    assert (startswith "#" ("# Title for " +:+ filename) = true) as -> by reflexivity.
    by rewrite andb_false_r. }
  by rewrite (qualifies_title t).
Qed.

End TitleFile.

Section Pinning.

Variable scandir : gmap string string -> list (string * string).
Hypothesis scandir_perm : forall m, scandir m ≡ₚ map_to_list m.

Lemma pinned_load filename title st :
  has_char newline filename = false -> has_char cr filename = false ->
  title <> EmptyString ->
  startswith "#" title = false -> startswith "[" title = false ->
  pinned filename title st ->
  load_human_titles scandir st !! filename = Some title.
Proof.
  intros Hf Hfc Hne H2 H3 (Hown & t & transcript & Hfile & Ht & Htc & <-).
  apply (load_human_titles_own scandir scandir_perm st filename
           (title_file_content filename t transcript)); [done| |done].
  by apply first_qualifying_line_saved.
Qed.

Lemma pinned_resolve filename title st
  (ollama : nat -> string -> string -> OllamaReply) transcript :
  has_char newline filename = false -> has_char cr filename = false ->
  title <> EmptyString ->
  startswith "#" title = false -> startswith "[" title = false ->
  pinned filename title st ->
  pinned filename title
    (generate_title_from_transcript scandir ollama st transcript filename).2.
Proof.
  intros Hf Hfc Hne H2 H3 Hp.
  rewrite (generate_title_override scandir ollama st transcript filename title)
    by (by apply pinned_load).
  destruct Hp as (Hown & t & transcript0 & Hfile & Ht & Htc & <-).
  split; [by apply owns_title_file_save|].
  exists (strip t), transcript. cbn [snd].
  split; [apply lookup_insert_eq|].
  split; [by apply has_char_strip|]. split; [by apply has_char_strip|].
  apply strip_strip.
Qed.

Lemma pinned_resolve_again filename title runs st :
  has_char newline filename = false -> has_char cr filename = false ->
  title <> EmptyString ->
  startswith "#" title = false -> startswith "[" title = false ->
  pinned filename title st ->
  pinned filename title (resolve_again scandir runs filename st).
Proof.
  intros Hf Hfc Hne H2 H3. revert st.
  induction runs as [|[ollama transcript] runs IH]; intros st Hp; [done|].
  cbn [resolve_again]. by apply IH, pinned_resolve.
Qed.

(** C5. A title of one line, not blank, that starts with neither [#] nor
    [[] once the white space at its ends is removed, written by
    [save_title_to_file] for a file name of one line that owns its title
    file, is read back by [load_human_titles] under that file name with
    the white space at its two ends removed, so as it is when it has none;
    and every later resolution for the file name, after any number of
    resolutions, returns it, whatever the transcripts and the models. *)
Theorem title_file_round_trip (st : Transcriber) filename t transcript :
  has_char newline filename = false -> has_char cr filename = false ->
  has_char newline t = false -> has_char cr t = false ->
  strip t <> EmptyString ->
  startswith "#" (strip t) = false ->
  startswith "[" (strip t) = false ->
  owns_title_file (out_files st) filename ->
  let st' := save_title_to_file st filename t transcript in
  load_human_titles scandir st' !! filename = Some (strip t) /\
  (strip t = t -> load_human_titles scandir st' !! filename = Some t) /\
  forall (runs : list ((nat -> string -> string -> OllamaReply) * string))
         (ollama : nat -> string -> string -> OllamaReply) transcript',
    (generate_title_from_transcript scandir ollama
       (resolve_again scandir runs filename st') transcript' filename).1 = strip t.
Proof.
  intros Hf Hfc Ht Htc H1 H2 H3 Hown st'.
  assert (pinned filename (strip t) st') as Hp.
  { split; [by apply owns_title_file_save|].
    exists t, transcript. split; [apply lookup_insert_eq|done]. }
  assert (load_human_titles scandir st' !! filename = Some (strip t)) as Hload
    by (by apply pinned_load).
  split; [done|]. split; [by intros <-|].
  intros runs ollama transcript'.
  rewrite (generate_title_override scandir ollama _ transcript' filename (strip t));
    [done|].
  by apply pinned_load, pinned_resolve_again.
Qed.

(** C8. The resolution always yields a title.  A model that errors or
    refuses is passed over.  With a human title the result is not empty;
    when there is none and every model errors or refuses, the result is
    the heuristic title, which is empty exactly when the first sentence of
    the transcript holds no text. *)
Theorem title_resolution_outcome (ollama : nat -> string -> string -> OllamaReply)
  (st : Transcriber) transcript filename :
  let title := (generate_title_from_transcript scandir ollama st transcript filename).1 in
  (forall model rest prompt,
     falls_through (ollama (length (events st)) model prompt) = true ->
     try_models ollama (model :: rest) prompt transcript filename st =
     try_models ollama rest prompt transcript filename (record_event (EvOllama model) st)) /\
  (is_Some (load_human_titles scandir st !! filename) -> title <> EmptyString) /\
  (load_human_titles scandir st !! filename = None ->
   (forall n model, model ∈ models_to_try ->
      falls_through (ollama n model (prompt_of transcript filename)) = true) ->
   title = extract_first_sentence transcript /\
   (title = EmptyString <-> first_sentence_text transcript = EmptyString)).
Proof.
  simpl. split; [|split].
  - intros model rest prompt. apply try_models_skip.
  - intros [t Ht].
    rewrite (generate_title_override scandir ollama st transcript filename t Ht).
    by eapply load_human_titles_nonempty.
  - intros Hh Hm.
    rewrite (generate_title_fallback scandir ollama st transcript filename Hh Hm).
    split; [done|]. apply truncate_title_empty.
Qed.

End Pinning.

(** ** Examples of title resolution *)

Lemma scandir_map_perm (m : gmap string string) : scandir_map m ≡ₚ map_to_list m.
Proof. reflexivity. Defined.

(** The title file [01+secret.title], edited by hand, gives its title to
    [01+secret.mp3] though every call to a model fails. *)
Lemma human_override_precedence_witness :
  (generate_title_from_transcript scandir_map ollama_down hand_edited
     secret_transcript secret_mp3).1 = "My Title".
Proof.
  apply (human_override_precedence scandir_map scandir_map_perm ollama_down hand_edited
           secret_transcript secret_mp3 indented_title_file " My Title").
  - evaluate.
  - evaluate.
  - apply (bool_decide_unpack _). vm_compute. exact I.
Defined.

(** C2, counterexample.  The first qualifying line of the title file is
    " My Title", with its space, and the title is "My Title"; and the
    title file of [a.mp3.mp3], which is [a.title], is not used for it. *)
Lemma human_override_not_verbatim :
  out_files hand_edited !! title_file_name secret_mp3 = Some indented_title_file /\
  first_qualifying_line indented_title_file = Some " My Title" /\
  (generate_title_from_transcript scandir_map ollama_down hand_edited
     secret_transcript secret_mp3).1 <> " My Title" /\
  out_files doubled_suffix !! title_file_name "a.mp3.mp3" = Some "Pinned By Hand" /\
  first_qualifying_line "Pinned By Hand" = Some "Pinned By Hand" /\
  (generate_title_from_transcript scandir_map ollama_down doubled_suffix
     secret_transcript "a.mp3.mp3").1 <> "Pinned By Hand".
Proof. repeat split; evaluate. Qed.

(** With every model refusing, the transcript of the example gets its
    first sentence for a title. *)
Lemma refusal_fallthrough_witness :
  (generate_title_from_transcript scandir_map ollama_refusing nothing_on_disk
     secret_transcript secret_mp3).1 = "I can not believe this happened".
Proof.
  destruct (refusal_fallthrough scandir_map ollama_refusing nothing_on_disk
              secret_transcript secret_mp3) as (_ & _ & H).
  - evaluate.
  - intros n model _. evaluate.
  - apply H. evaluate.
Defined.

(** C3, counterexample.  The white space of the first sentence is not
    collapsed: with every model refusing, of the three spaces of
    "a   b. c" two are left in the title. *)
Lemma refusal_fallthrough_keeps_spaces :
  load_human_titles scandir_map nothing_on_disk !! secret_mp3 = None /\
  (forall n model,
     falls_through (ollama_refusing n model (prompt_of "a   b. c" secret_mp3)) = true) /\
  (generate_title_from_transcript scandir_map ollama_refusing nothing_on_disk
     "a   b. c" secret_mp3).1 = "a  b" /\
  "a  b" <> "a b".
Proof.
  split; [evaluate|]. split; [intros n model; evaluate|]. split; evaluate.
Qed.

(** A response of 61 characters between quotes, accepted from the first
    model, is cut to its first 47 characters and three dots. *)
Lemma truncation_law_witness :
  (generate_title_from_transcript scandir_map ollama_long nothing_on_disk
     secret_transcript secret_mp3).1
  = "The Night the Whole Camp Sang Along to a Broken...".
Proof.
  destruct (truncation_law scandir_map ollama_long nothing_on_disk
              secret_transcript secret_mp3
              "The Night the Whole Camp Sang Along to a Broken Radio at Dawn")
    as (Hlong & _ & _).
  - evaluate.
  - left.
    exists [], "llama3.2:3b", ["llama3.1:8b"; "mistral:7b"; "codellama:7b"],
      "'The Night the Whole Camp Sang Along to a Broken Radio at Dawn'".
    split; [reflexivity|]. split; [intros n m Hm; by apply elem_of_nil in Hm|].
    split; [reflexivity|]. split; evaluate.
  - destruct Hlong as (-> & _); [evaluate|]. evaluate.
Defined.

(** The title "A Secret Confession" written for [01+secret.mp3] is the
    title of the resolutions that follow, here the second one, whatever
    the model answers. *)
Lemma title_file_round_trip_witness :
  (generate_title_from_transcript scandir_map ollama_quotes
     (resolve_again scandir_map [(ollama_long, "Another transcript.")] secret_mp3
        (save_title_to_file nothing_on_disk secret_mp3 "A Secret Confession"
           secret_transcript))
     "A third transcript." secret_mp3).1 = "A Secret Confession".
Proof.
  destruct (title_file_round_trip scandir_map scandir_map_perm nothing_on_disk
              secret_mp3 "A Secret Confession" secret_transcript) as (_ & _ & H).
  - evaluate.
  - evaluate.
  - evaluate.
  - evaluate.
  - evaluate.
  - evaluate.
  - evaluate.
  - apply (bool_decide_unpack _). vm_compute. exact I.
  - apply (H [(ollama_long, "Another transcript.")] ollama_quotes "A third transcript.").
Defined.

(** C5, counterexample.  A title that starts with a space is read back
    without it, and a title made of a space is not read back at all: the
    preview of the transcript is taken for the title. *)
Lemma title_file_round_trip_fails :
  indented_title <> EmptyString /\
  has_char newline indented_title = false /\
  startswith "#" indented_title = false /\
  startswith "[" indented_title = false /\
  load_human_titles scandir_map
    (save_title_to_file nothing_on_disk secret_mp3 indented_title secret_transcript)
    !! mp3_of_title_file (title_file_name secret_mp3) = Some "A Secret" /\
  Some "A Secret" <> Some indented_title /\
  blank_title <> EmptyString /\
  has_char newline blank_title = false /\
  startswith "#" blank_title = false /\
  startswith "[" blank_title = false /\
  load_human_titles scandir_map
    (save_title_to_file nothing_on_disk secret_mp3 blank_title secret_transcript)
    !! mp3_of_title_file (title_file_name secret_mp3) =
    Some "I can not believe this happened. It was wild...." /\
  Some "I can not believe this happened. It was wild...." <> Some blank_title.
Proof. repeat split; evaluate. Qed.

(** With no human title and no model that answers, the title of the
    transcript of the example is its first sentence, which is not empty. *)
Lemma title_resolution_outcome_witness :
  (generate_title_from_transcript scandir_map ollama_down nothing_on_disk
     secret_transcript secret_mp3).1 = extract_first_sentence secret_transcript /\
  (generate_title_from_transcript scandir_map ollama_down nothing_on_disk
     secret_transcript secret_mp3).1 <> EmptyString.
Proof.
  destruct (title_resolution_outcome scandir_map ollama_down nothing_on_disk
              secret_transcript secret_mp3) as (_ & _ & H).
  destruct H as [E Hempty].
  - evaluate.
  - intros n model _. evaluate.
  - split; [exact E|]. intros Ht. apply Hempty in Ht. vm_compute in Ht. discriminate.
Defined.

(** C8, counterexample.  The first model answers with two quote characters:
    the response is accepted, the title is empty, and yet the first
    sentence of the transcript holds text. *)
Lemma accepted_title_may_be_empty :
  load_human_titles scandir_map nothing_on_disk !! secret_mp3 = None /\
  falls_through (ollama_quotes 0 "llama3.2:3b" (prompt_of secret_transcript secret_mp3))
    = false /\
  (generate_title_from_transcript scandir_map ollama_quotes nothing_on_disk
     secret_transcript secret_mp3).1 = EmptyString /\
  extract_first_sentence secret_transcript <> EmptyString.
Proof. repeat split; evaluate. Qed.

(** ** URL discovery *)

Section Locator.

Lemma take_while_not_dquote s : has_char dquote (Re.take_while Re.not_dquote s) = false.
Proof.
  induction s as [|c s IH]; [done|]. simpl.
  unfold Re.not_dquote at 1. destruct (Ascii.eqb c dquote) eqn:E; [done|].
  simpl. by rewrite E.
Qed.

Lemma take_while_split p s :
  s = Re.take_while p s +:+ drop (len (Re.take_while p s)) s.
Proof.
  induction s as [|c s IH]; [done|]. simpl.
  destruct (p c); [|done].
  rewrite app_cons_str, len_cons. simpl. by rewrite <- IH.
Qed.

Lemma app_inv_head_str s t t' : s +:+ t = s +:+ t' -> t = t'.
Proof.
  induction s as [|c s IH]; [done|]. rewrite !app_cons_str. intros [= H]. by apply IH.
Qed.

(** The run of characters before the first quote. *)
Lemma take_while_free s t :
  has_char dquote s = false ->
  Re.take_while Re.not_dquote (s +:+ t) = s +:+ Re.take_while Re.not_dquote t.
Proof.
  induction s as [|c s IH]; [done|]. cbn [has_char].
  intros [Hc Hs]%orb_false_iff. rewrite !app_cons_str. cbn [Re.take_while].
  unfold Re.not_dquote at 1. rewrite Hc. cbn [negb]. by rewrite IH.
Qed.

Lemma take_while_quote s t :
  has_char dquote s = false ->
  Re.take_while Re.not_dquote (s +:+ char dquote +:+ t) = s.
Proof.
  intros H. rewrite take_while_free by done.
  unfold char. rewrite app_cons_str. cbn [Re.take_while].
  unfold Re.not_dquote at 1. rewrite Ascii.eqb_refl. cbn [negb].
  apply app_empty_r.
Qed.

(** A text is free of quotes, or has a first quote. *)
Lemma first_quote s :
  has_char dquote s = false \/
  exists before after,
    s = before +:+ char dquote +:+ after /\ has_char dquote before = false.
Proof.
  induction s as [|c s IH]; [by left|]. cbn [has_char].
  destruct (Ascii.eqb_spec c dquote) as [->|Hc].
  - right. by exists EmptyString, s.
  - destruct IH as [H | (before & after & -> & H)]; [by left|].
    right. exists (String c before), after. split; [done|].
    cbn [has_char]. rewrite H, orb_false_r. by apply Ascii.eqb_neq.
Qed.

(** A match of the URL pattern at the start of a text: the attribute,
    the URL between quotes, and the rest. *)
Lemma match_url_at_occurs attr s url n :
  Re.match_url_at attr s = Some (url, n) ->
  exists post,
    s = attr +:+ "=" +:+ char dquote +:+ url +:+ char dquote +:+ post /\
    startswith Re.audio_host url = true /\
    endswith ".mp3" url = true /\
    has_char dquote url = false /\
    n = len attr + len url + 3 /\
    exists body,
      url = Re.audio_host +:+ body +:+ ".mp3" /\ body <> EmptyString.
Proof.
  unfold Re.match_url_at.
  set (prefix := attr +:+ "=" +:+ char dquote +:+ Re.audio_host).
  destruct (startswith prefix s) eqn:Hp; [|done].
  set (rest := drop (len prefix) s).
  set (run := Re.take_while Re.not_dquote rest).
  destruct (startswith (char dquote) (drop (len run) rest)
            && endswith ".mp3" run && (5 <=? len run)) eqn:Hc; [|done].
  apply andb_true_iff in Hc as [[Hq He]%andb_true_iff Hlen%Nat.leb_le].
  intros [= <- <-].
  exists (drop 1 (drop (len run) rest)). split; [|split; [|split; [|split; [|split]]]].
  - rewrite (startswith_split _ _ Hp). fold rest.
    rewrite (take_while_split Re.not_dquote rest) at 1. fold run.
    rewrite (startswith_split _ _ Hq) at 1.
    unfold prefix. by rewrite !app_assoc_str.
  - apply startswith_app.
  - apply endswith_split in He. rewrite He, <- app_assoc_str. apply endswith_app.
  - rewrite has_char_app. unfold run. by rewrite take_while_not_dquote.
  - unfold prefix. rewrite !len_app. change (len "=") with 1.
    change (len (char dquote)) with 1. lia.
  - exists (take (len run - 4) run). split.
    + apply endswith_split in He. change (len ".mp3") with 4 in He. by rewrite <- He.
    + intros E. apply (f_equal len) in E. rewrite len_take in E.
      change (len EmptyString) with 0 in E. lia.
Qed.

Lemma findall_from_occurs attr skip s url :
  url ∈ Re.findall_from attr skip s ->
  exists pre post,
    s = pre +:+ attr +:+ "=" +:+ char dquote +:+ url +:+ char dquote +:+ post /\
    startswith Re.audio_host url = true /\
    endswith ".mp3" url = true /\
    has_char dquote url = false /\
    exists body,
      url = Re.audio_host +:+ body +:+ ".mp3" /\ body <> EmptyString.
Proof.
  revert skip. induction s as [|c s IH]; intros skip H; [by apply elem_of_nil in H|].
  assert (forall k, url ∈ Re.findall_from attr k s ->
    exists pre post,
      String c s = pre +:+ attr +:+ "=" +:+ char dquote +:+ url +:+ char dquote +:+ post /\
      startswith Re.audio_host url = true /\ endswith ".mp3" url = true /\
      has_char dquote url = false /\
      exists body,
        url = Re.audio_host +:+ body +:+ ".mp3" /\ body <> EmptyString) as Hrest.
  { intros k Hk. destruct (IH k Hk) as (pre & post & -> & ?).
    exists (String c pre), post. by rewrite app_cons_str. }
  simpl in H. destruct skip as [|k]; [|by eapply Hrest].
  destruct (Re.match_url_at attr (String c s)) as [[u n]|] eqn:E; [|by eapply Hrest].
  apply elem_of_cons in H as [->|H]; [|by eapply Hrest].
  destruct (match_url_at_occurs _ _ _ _ E) as (post & ? & ? & ? & ? & _ & ?).
  by exists EmptyString, post.
Qed.

(** The pattern matches where an occurrence stands. *)
Lemma match_url_at_complete attr body post :
  body <> EmptyString -> has_char dquote body = false ->
  exists n,
    Re.match_url_at attr
      (attr +:+ "=" +:+ char dquote +:+ (Re.audio_host +:+ body +:+ ".mp3") +:+
       char dquote +:+ post)
    = Some (Re.audio_host +:+ body +:+ ".mp3", n).
Proof.
  intros Hne Hfree. unfold Re.match_url_at.
  set (prefix := attr +:+ "=" +:+ char dquote +:+ Re.audio_host).
  assert (attr +:+ "=" +:+ char dquote +:+ (Re.audio_host +:+ body +:+ ".mp3") +:+
          char dquote +:+ post
          = prefix +:+ (body +:+ ".mp3") +:+ char dquote +:+ post) as ->.
  { unfold prefix. by rewrite !app_assoc_str. }
  rewrite startswith_app, drop_app_len.
  assert (has_char dquote (body +:+ ".mp3") = false) as Hrun
    by (by rewrite has_char_app, Hfree).
  rewrite take_while_quote by done.
  rewrite drop_app_len, startswith_app, endswith_app.
  assert ((5 <=? len (body +:+ ".mp3")) = true) as ->.
  { apply Nat.leb_le. rewrite len_app. change (len ".mp3") with 4.
    destruct body; [done|]. rewrite len_cons. lia. }
  eexists. cbn [andb]. reflexivity.
Qed.

(** A match that starts before an occurrence ends before it: the quote
    that closes the match follows [.mp3], and the quote that opens the
    occurrence follows [=]. *)
Lemma match_url_at_before attr pre v post u n :
  has_char dquote attr = false ->
  has_char dquote v = false ->
  pre <> EmptyString ->
  Re.match_url_at attr
    (pre +:+ attr +:+ "=" +:+ char dquote +:+ v +:+ char dquote +:+ post)
    = Some (u, n) ->
  n <= len pre.
Proof.
  intros Hattr Hv Hpre Hm.
  destruct (match_url_at_occurs _ _ _ _ Hm)
    as (post' & Hs & _ & Hends & Hu & -> & _).
  assert (has_char dquote (attr +:+ "=") = false) as HA
    by (by rewrite has_char_app, Hattr).
  rewrite <- !(app_assoc_str attr "=") in Hs.
  pose proof (f_equal (Re.take_while Re.not_dquote) Hs) as Hfirst.
  rewrite (take_while_quote (attr +:+ "=")) in Hfirst by done.
  destruct (first_quote pre) as [Hfree | (T & R & -> & HT)].
  { rewrite <- app_assoc_str in Hfirst.
    rewrite take_while_quote in Hfirst by (by rewrite has_char_app, Hfree, HA).
    apply (f_equal len) in Hfirst. rewrite len_app in Hfirst.
    destruct pre; [done|]. rewrite len_cons in Hfirst. lia. }
  rewrite !app_assoc_str in Hfirst.
  rewrite take_while_quote in Hfirst by done. subst T.
  rewrite !app_assoc_str in Hs.
  do 3 apply app_inv_head_str in Hs.
  pose proof (f_equal (Re.take_while Re.not_dquote) Hs) as Hsecond.
  rewrite (take_while_quote u) in Hsecond by done.
  destruct (first_quote R) as [Hfree | (T2 & R3 & -> & HT2)].
  { exfalso.
    rewrite <- (app_assoc_str attr "="), <- (app_assoc_str R) in Hsecond.
    rewrite take_while_quote in Hsecond by (by rewrite has_char_app, Hfree, HA).
    apply endswith_split in Hends. rewrite <- Hsecond in Hends at 1.
    set (X := take (len u - len ".mp3") u) in Hends.
    assert ((R +:+ attr) +:+ char "=" = (X +:+ ".mp") +:+ char "3") as E
      by (rewrite !app_assoc_str; exact Hends).
    by apply last_char_eq in E. }
  rewrite !app_assoc_str in Hsecond.
  rewrite take_while_quote in Hsecond by done. subst T2.
  rewrite !len_app. change (len (char dquote)) with 1. change (len "=") with 1. lia.
Qed.

Lemma findall_from_here attr s url n :
  Re.match_url_at attr s = Some (url, n) -> url ∈ Re.findall_from attr 0 s.
Proof.
  intros H. destruct s as [|c s].
  - unfold Re.match_url_at in H. by destruct attr.
  - cbn [Re.findall_from]. rewrite H. by left.
Qed.

(** Every occurrence is found. *)
Lemma findall_from_complete attr pre body post skip :
  has_char dquote attr = false ->
  body <> EmptyString -> has_char dquote body = false ->
  skip <= len pre ->
  Re.audio_host +:+ body +:+ ".mp3" ∈
    Re.findall_from attr skip
      (pre +:+ attr +:+ "=" +:+ char dquote +:+ (Re.audio_host +:+ body +:+ ".mp3") +:+
       char dquote +:+ post).
Proof.
  intros Hattr Hne Hfree. revert skip.
  set (url := Re.audio_host +:+ body +:+ ".mp3").
  assert (has_char dquote url = false) as Hurl
    by (unfold url; by rewrite !has_char_app, Hfree).
  induction pre as [|c pre IH]; intros skip Hskip.
  - rewrite app_nil_str. destruct skip; [|change (len EmptyString) with 0 in Hskip; lia].
    destruct (match_url_at_complete attr body post Hne Hfree) as (n & Hm).
    by eapply findall_from_here.
  - rewrite len_cons in Hskip.
    set (tail := attr +:+ "=" +:+ char dquote +:+ url +:+ char dquote +:+ post) in *.
    rewrite app_cons_str.
    destruct skip as [|k]; cbn [Re.findall_from]; [|apply IH; lia].
    destruct (Re.match_url_at attr (String c (pre +:+ tail))) as [[u n]|] eqn:Hm.
    + right. apply IH.
      rewrite <- app_cons_str in Hm. unfold tail in Hm.
      apply match_url_at_before in Hm; [|done|done|done].
      rewrite len_cons in Hm. lia.
    + apply IH. lia.
Qed.

(** C10. The URLs returned for a text are sorted, without duplicates, and
    are exactly the URLs that stand in the text between quotes after
    [src=] or [data-audio=] and are made of the audio host, a body that is
    not empty and holds no quote, and [.mp3]: the matches of the two
    patterns. *)
Theorem extract_audio_urls_sorted_union content :
  let urls := extract_audio_urls content in
  StronglySorted String.le urls /\
  NoDup urls /\
  (forall url,
     url ∈ urls <->
     exists attr pre body post,
       (attr = "src" \/ attr = "data-audio") /\
       body <> EmptyString /\ has_char dquote body = false /\
       url = Re.audio_host +:+ body +:+ ".mp3" /\
       content = pre +:+ attr +:+ "=" +:+ char dquote +:+ url +:+ char dquote +:+ post).
Proof.
  simpl. unfold extract_audio_urls.
  set (found := Re.findall_urls "src" content ++ Re.findall_urls "data-audio" content).
  assert (forall url, url ∈ merge_sort String.le (elements (list_to_set found : gset string))
                      <-> url ∈ found) as Hin.
  { intros url. by rewrite merge_sort_Permutation, elem_of_elements, elem_of_list_to_set. }
  split; [apply StronglySorted_merge_sort; apply _|].
  split; [rewrite merge_sort_Permutation; apply NoDup_elements|].
  intros url. rewrite Hin. unfold found. rewrite elem_of_app. split.
  - assert (forall attr, url ∈ Re.findall_urls attr content ->
      exists pre body post,
        body <> EmptyString /\ has_char dquote body = false /\
        url = Re.audio_host +:+ body +:+ ".mp3" /\
        content = pre +:+ attr +:+ "=" +:+ char dquote +:+ url +:+ char dquote +:+ post)
      as Hsound.
    { intros attr H.
      destruct (findall_from_occurs _ _ _ _ H)
        as (pre & post & Hc & _ & _ & Hq & body & Hu & Hb).
      exists pre, body, post. split; [done|]. split; [|done].
      rewrite Hu, !has_char_app in Hq. by apply orb_false_iff in Hq as [_ [? _]%orb_false_iff]. }
    intros [H|H]; apply Hsound in H as (pre & body & post & ?).
    + by exists "src", pre, body, post; split; [left|].
    + by exists "data-audio", pre, body, post; split; [right|].
  - intros (attr & pre & body & post & Hattr & Hne & Hfree & -> & ->).
    destruct Hattr as [-> | ->]; [left|right];
      by apply findall_from_complete; [| | |lia].
Qed.

End Locator.

(** The first list item of the document of the example gives its URL. *)
Lemma extract_audio_urls_sorted_union_witness :
  secret_url ∈ extract_audio_urls index_html.
Proof.
  destruct (extract_audio_urls_sorted_union index_html) as (_ & _ & H).
  apply H.
  exists "data-audio", "<ul><li ", "random/01+secret",
    (">old</li><li " +:+ Re.li_open other_url +:+ "other</li></ul>").
  split; [by right|]. split; [done|]. split; [evaluate|]. split; evaluate.
Defined.

(** ** The HTML patcher *)

Section Patcher.

Implicit Types files : gmap string string.

Lemma backup_name_fresh html_file : html_file <> html_file +:+ ".backup".
Proof.
  intros H. apply (f_equal len) in H. rewrite len_app in H.
  change (len ".backup") with 7 in H. lia.
Qed.

(** The backup after a run: the old one when there was one, the text of
    the document otherwise. *)
Lemma update_html_backup html_file url_to_title files :
  (update_html html_file url_to_title files).2 !! (html_file +:+ ".backup") =
  match files !! (html_file +:+ ".backup") with
  | Some backup => Some backup
  | None => read_text <$> files !! html_file
  end.
Proof.
  unfold update_html.
  destruct (files !! html_file) as [stored|] eqn:Hdoc; simpl.
  - destruct (files !! (html_file +:+ ".backup")) as [backup|] eqn:Hb.
    + destruct (patch_all url_to_title (read_text stored)); simpl; [|done].
      rewrite lookup_insert_ne by apply backup_name_fresh. done.
    + destruct (patch_all url_to_title (read_text stored)); simpl.
      * rewrite lookup_insert_ne by apply backup_name_fresh. apply lookup_insert_eq.
      * apply lookup_insert_eq.
  - by destruct (files !! (html_file +:+ ".backup")).
Qed.

Lemma update_html_document html_file url_to_title files :
  is_Some (files !! html_file) ->
  is_Some ((update_html html_file url_to_title files).2 !! html_file).
Proof.
  intros [stored Hdoc]. unfold update_html. rewrite Hdoc.
  destruct (files !! (html_file +:+ ".backup")),
    (patch_all url_to_title (read_text stored));
    simpl; rewrite ?lookup_insert_eq, ?lookup_insert_ne, ?Hdoc;
    eauto using backup_name_fresh.
  all: rewrite lookup_insert_ne by (apply not_eq_sym, backup_name_fresh); eauto.
Qed.

Lemma apply_existing_titles_backup url_to_title files :
  (apply_existing_titles url_to_title files).2 !! "index.html.backup" =
  match files !! "index.html.backup" with
  | Some backup => Some backup
  | None => read_text <$> files !! "index.html"
  end.
Proof.
  unfold apply_existing_titles.
  destruct (files !! "index.html") as [stored|] eqn:Hdoc; simpl.
  - destruct (files !! "index.html.backup") as [backup|] eqn:Hb.
    + destruct (apply_all url_to_title (read_text stored)); simpl; [|done].
      by rewrite lookup_insert_ne.
    + destruct (apply_all url_to_title (read_text stored)); simpl.
      * rewrite lookup_insert_ne by done. apply lookup_insert_eq.
      * apply lookup_insert_eq.
  - by destruct (files !! "index.html.backup").
Qed.

(** C7. A run of [update_html_file] leaves an existing backup as it is
    and, when there is none, writes to it the text of the document as it
    is read, which is the document itself when it holds no CR; the backup
    after two runs is the backup after one.  The same holds for
    [apply_existing_titles] and the backup of [index.html]. *)
Theorem backup_write_once (st : Transcriber) html_file url_to_title url_to_title' :
  let backup_file := html_file +:+ ".backup" in
  let st1 := (update_html_file st html_file url_to_title).2 in
  let st2 := (update_html_file st1 html_file url_to_title').2 in
  (forall backup, cwd_files st !! backup_file = Some backup ->
     cwd_files st1 !! backup_file = Some backup) /\
  (forall stored, cwd_files st !! backup_file = None ->
     cwd_files st !! html_file = Some stored ->
     cwd_files st1 !! backup_file = Some (read_text stored) /\
     (has_char cr stored = false -> cwd_files st1 !! backup_file = Some stored)) /\
  cwd_files st2 !! backup_file = cwd_files st1 !! backup_file /\
  (forall files,
     let files1 := (apply_existing_titles url_to_title files).2 in
     let files2 := (apply_existing_titles url_to_title' files1).2 in
     (forall backup, files !! "index.html.backup" = Some backup ->
        files1 !! "index.html.backup" = Some backup) /\
     (forall stored, files !! "index.html.backup" = None ->
        files !! "index.html" = Some stored ->
        files1 !! "index.html.backup" = Some (read_text stored) /\
        (has_char cr stored = false -> files1 !! "index.html.backup" = Some stored)) /\
     files2 !! "index.html.backup" = files1 !! "index.html.backup").
Proof.
  simpl.
  assert (forall s m, cwd_files (update_html_file s html_file m).2 =
                      (update_html html_file m (cwd_files s)).2) as E.
  { intros s m. unfold update_html_file. by destruct (update_html html_file m (cwd_files s)). }
  rewrite !E. split; [|split; [|split]].
  - intros backup H. by rewrite update_html_backup, H.
  - intros stored Hb Hd. rewrite update_html_backup, Hb, Hd. cbn [fmap option_fmap option_map].
    split; [done|]. intros Hcr. by rewrite read_text_plain.
  - rewrite (update_html_backup html_file url_to_title').
    destruct ((update_html html_file url_to_title (cwd_files st)).2
                !! (html_file +:+ ".backup")) as [b|] eqn:Hb; [done|].
    rewrite update_html_backup in Hb.
    destruct (cwd_files st !! (html_file +:+ ".backup")) eqn:Hb'; [done|].
    destruct (cwd_files st !! html_file) eqn:Hd; [cbn in Hb; discriminate|].
    unfold update_html. rewrite Hd. cbn [snd]. by rewrite Hd.
  - intros files. split; [|split].
    + intros backup H. by rewrite apply_existing_titles_backup, H.
    + intros stored Hb Hd. rewrite apply_existing_titles_backup, Hb, Hd.
      cbn [fmap option_fmap option_map].
      split; [done|]. intros Hcr. by rewrite read_text_plain.
    + rewrite (apply_existing_titles_backup url_to_title').
      destruct ((apply_existing_titles url_to_title files).2 !! "index.html.backup")
        as [b|] eqn:Hb; [done|].
      rewrite apply_existing_titles_backup in Hb.
      destruct (files !! "index.html.backup") eqn:Hb'; [done|].
      destruct (files !! "index.html") eqn:Hd; [cbn in Hb; discriminate|].
      unfold apply_existing_titles. rewrite Hd. cbn [snd]. by rewrite Hd.
Qed.

End Patcher.

(** The document has no backup: the first run copies it as it stands. *)
Lemma backup_write_once_witness :
  cwd_files
    (update_html_file (new_transcriber ∅ (site index_html)) "index.html"
       [(secret_url, "A Secret Confession")]).2 !! "index.html.backup"
  = Some index_html.
Proof.
  destruct (backup_write_once (new_transcriber ∅ (site index_html)) "index.html"
              [(secret_url, "A Secret Confession")] [(secret_url, "Another Title")])
    as (_ & H & _).
  destruct (H index_html) as [_ Hplain].
  - evaluate.
  - evaluate.
  - apply Hplain. evaluate.
Defined.

(** C7, counterexample.  A document whose lines end with CR LF: the backup
    that the first run makes ends its lines with LF, so that it is not
    the document as it was stored. *)
Lemma backup_is_not_verbatim :
  cwd_files (new_transcriber ∅ (site crlf_html)) !! "index.html.backup" = None /\
  cwd_files (new_transcriber ∅ (site crlf_html)) !! "index.html" = Some crlf_html /\
  cwd_files (update_html_file (new_transcriber ∅ (site crlf_html)) "index.html" []).2
    !! "index.html.backup" = Some ("<p>one</p>" +:+ nl +:+ "<p>two</p>" +:+ nl) /\
  "<p>one</p>" +:+ nl +:+ "<p>two</p>" +:+ nl <> crlf_html /\
  (apply_existing_titles [] (site crlf_html)).2 !! "index.html.backup"
    = Some ("<p>one</p>" +:+ nl +:+ "<p>two</p>" +:+ nl).
Proof. repeat split; evaluate. Qed.

(** The document of the example is patched for one URL, its backup is
    made, and a second run with another title leaves the backup alone. *)
Lemma backup_write_once_example :
  update_html "index.html" [(secret_url, "A Secret Confession")] (site index_html) =
    (Completed,
     <["index.html" := index_html_patched]>
       (<["index.html.backup" := index_html]> (site index_html))) /\
  (update_html "index.html" [(secret_url, "Another Title")]
     (update_html "index.html" [(secret_url, "A Secret Confession")] (site index_html)).2).2
    !! "index.html.backup" = Some index_html.
Proof. split; evaluate. Qed.

(** C9. A title with a backslash: the replacement of [re.sub] is read as
    a template, [\D] is not an escape, and the patcher raises, be there a
    match of the URL in the document or none; the document is not
    patched. *)
Theorem patch_title_with_backslash :
  Re.parse_template 0 (Re.li_open secret_url +:+ backslash_title +:+ "</li>") = None /\
  update_html "index.html" [(secret_url, backslash_title)] (site index_html) =
    (Raised, <["index.html.backup" := index_html]> (site index_html)) /\
  search (Re.match_li_at secret_url) plain_html = false /\
  search (Re.match_span_at secret_url) plain_html = false /\
  update_html "index.html" [(secret_url, backslash_title)] (site plain_html) =
    (Raised, <["index.html.backup" := plain_html]> (site plain_html)).
Proof. repeat split; evaluate. Qed.

(** ** Downloads *)

Section BackupFacts.

Variable unquote : string -> string.
Variable http_get : nat -> string -> HttpResponse.
Variable elsewhere : nat -> string -> PathState.
Variable directory_size : string -> nat.

Implicit Types st : Downloader.

Local Notation fetch := (download_file unquote http_get elsewhere directory_size).
Local Notation fetch_all := (download_all unquote http_get elsewhere directory_size).
Local Notation found := (found_size unquote elsewhere directory_size).

(** A path that is there is skipped. *)
Lemma download_file_found st url size :
  found st url = Some size ->
  fetch st url = (true, set_stats (count_skipped size (stats st)) st).
Proof. intros H. unfold download_file. by rewrite H. Qed.

(** What a download does when nothing is at the path: one request, and
    either the files are as before, or the download succeeded and wrote
    the file of the backup that the path names. *)
Lemma download_file_fetch st url :
  found st url = None ->
  let result := fetch st url in
  requests result.2 = requests st ++ [url] /\
  backup_dirs result.2 = backup_dirs st /\
  counted_once result.1 (stats st) (stats result.2) /\
  (backup_files result.2 = backup_files st \/
   exists key,
     place_of unquote st url = BackupEntry key /\
     backup_files st !! key = None /\
     result.1 = true /\
     backup_files result.2 =
       <[key := written (chunks (http_get (length (requests st)) url))]>
         (backup_files st)) /\
  (result.1 = false -> backup_files result.2 = backup_files st).
Proof.
  intros Hfound. cbv zeta. unfold download_file. rewrite Hfound.
  set (response := http_get (length (requests st)) url).
  assert (forall s,
    requests s = requests st ++ [url] -> backup_dirs s = backup_dirs st ->
    stats s = stats st -> backup_files s = backup_files st ->
    let result := download_failed None s in
    requests result.2 = requests st ++ [url] /\
    backup_dirs result.2 = backup_dirs st /\
    counted_once result.1 (stats st) (stats result.2) /\
    (backup_files result.2 = backup_files st \/
     exists key,
       place_of unquote st url = BackupEntry key /\
       backup_files st !! key = None /\
       result.1 = true /\
       backup_files result.2 = <[key := written (chunks response)]> (backup_files st)) /\
    (result.1 = false -> backup_files result.2 = backup_files st)) as Hfail.
  { intros s Hr Hd Hst Hf. cbv zeta. unfold download_failed.
    cbn [fst snd unlink_file requests backup_dirs stats backup_files set_stats].
    rewrite Hst. split; [done|]. split; [done|].
    split; [unfold counted_once; cbn; lia|]. split; [by left|done]. }
  destruct (get_raises response); [by apply Hfail|].
  assert (forall declared : Z,
    let result :=
      match write_target unquote elsewhere st url with
      | Some key =>
          if stream_raises response
          then download_failed key
                 (write_file key (written (chunks response)) (record_request url st))
          else if (0 <? declared)%Z
                  && negb (Z.of_nat (len (written (chunks response))) =? declared)%Z
               then (false,
                     unlink_file key
                       (write_file key (written (chunks response))
                          (record_request url st)))
               else (true,
                     set_stats
                       (count_downloaded (len (written (chunks response)))
                          (stats (write_file key (written (chunks response))
                                    (record_request url st))))
                       (write_file key (written (chunks response))
                          (record_request url st)))
      | None => download_failed None (record_request url st)
      end in
    requests result.2 = requests st ++ [url] /\
    backup_dirs result.2 = backup_dirs st /\
    counted_once result.1 (stats st) (stats result.2) /\
    (backup_files result.2 = backup_files st \/
     exists key,
       place_of unquote st url = BackupEntry key /\
       backup_files st !! key = None /\
       result.1 = true /\
       backup_files result.2 = <[key := written (chunks response)]> (backup_files st)) /\
    (result.1 = false -> backup_files result.2 = backup_files st)) as Hopen.
  { intros declared. cbv zeta.
    destruct (write_target unquote elsewhere st url) as [[key|]|] eqn:Ht;
      [| |by apply Hfail].
    - assert (place_of unquote st url = BackupEntry key /\ backup_files st !! key = None)
        as [Hplace Hnone].
      { unfold write_target in Ht. unfold found_size in Hfound.
        destruct (place_of unquote st url) as [[dir entry]| | |] eqn:Hp; try done.
        - destruct (bool_decide _); [|done]. injection Ht as <-.
          split; [done|]. by destruct (backup_files st !! (dir, entry)).
        - by destruct (elsewhere _ _). }
      assert (delete key (<[key := written (chunks response)]> (backup_files st))
              = backup_files st) as Hdel
        by (by rewrite delete_insert_eq, delete_id).
      destruct (stream_raises response).
      + unfold download_failed.
        cbn [fst snd unlink_file write_file requests backup_dirs stats backup_files
             set_stats set_backup_files record_request].
        rewrite Hdel. split; [done|]. split; [done|].
        split; [unfold counted_once; cbn; lia|]. split; [by left|done].
      + destruct (_ && _).
        * cbn [fst snd unlink_file write_file requests backup_dirs stats backup_files
               set_stats set_backup_files record_request].
          rewrite Hdel. split; [done|]. split; [done|].
          split; [unfold counted_once; cbn; lia|]. split; [by left|done].
        * cbn [fst snd unlink_file write_file requests backup_dirs stats backup_files
               set_stats set_backup_files record_request].
          split; [done|]. split; [done|].
          split; [unfold counted_once; cbn; lia|]. split; [|done].
          right. by exists key.
    - destruct (stream_raises response).
      + unfold download_failed.
        cbn [fst snd unlink_file write_file requests backup_dirs stats backup_files
             set_stats set_backup_files record_request].
        split; [done|]. split; [done|].
        split; [unfold counted_once; cbn; lia|]. split; [by left|done].
      + destruct (_ && _);
          cbn [fst snd unlink_file write_file requests backup_dirs stats backup_files
               set_stats set_backup_files record_request];
          (split; [done|]); (split; [done|]);
          (split; [unfold counted_once; cbn; lia|]); (split; [by left|done]). }
  destruct (content_length response) as [[n|]|]; [apply Hopen|by apply Hfail|apply Hopen].
Qed.

(** A download that returns [False] leaves the files as they were, with
    no file at a path of the backup that it was asked to fill. *)
Lemma download_file_false st url :
  (fetch st url).1 = false ->
  backup_files (fetch st url).2 = backup_files st /\
  forall key, place_of unquote st url = BackupEntry key ->
    backup_files (fetch st url).2 !! key = None.
Proof.
  intros Hfalse.
  destruct (found st url) as [size|] eqn:Hfound.
  { by rewrite (download_file_found st url size Hfound) in Hfalse. }
  destruct (download_file_fetch st url Hfound) as (_ & _ & _ & _ & Hsame).
  cbv zeta in Hsame. specialize (Hsame Hfalse). split; [done|].
  intros key Hplace. rewrite Hsame.
  unfold found_size in Hfound. rewrite Hplace in Hfound.
  by destruct (backup_files st !! key).
Qed.

(** C6, for [AudioBackupDownloader.download_file].  When the response
    declares a positive length and the bytes written to a file of the
    backup have another size, the file is deleted, the download returns
    [False] after its single request, and the loop goes on with the next
    URL; and whenever a download returns [False] no file is left at the
    path of the backup that it was to fill. *)
Theorem size_mismatch_handling st url declared :
  let response := http_get (length (requests st)) url in
  let result := download_file unquote http_get elsewhere directory_size st url in
  (place_of unquote st url = BackupEntry (local_path unquote url) ->
   backup_files st !! local_path unquote url = None ->
   (local_path unquote url).1 ∈ backup_dirs st ->
   get_raises response = false ->
   stream_raises response = false ->
   content_length response = Some (Some declared) ->
   (0 < declared)%Z ->
   Z.of_nat (len (written (chunks response))) <> declared ->
   result.1 = false /\
   backup_files result.2 !! local_path unquote url = None /\
   backup_files result.2 = backup_files st /\
   requests result.2 = requests st ++ [url] /\
   forall rest,
     download_all unquote http_get elsewhere directory_size (url :: rest) st =
     download_all unquote http_get elsewhere directory_size rest result.2) /\
  (result.1 = false ->
   forall key, place_of unquote st url = BackupEntry key ->
     backup_files result.2 !! key = None).
Proof.
  cbv zeta. split; [|intros H; by apply download_file_false in H as [_ ?]].
  intros Hplace Hfile Hdir Hget Hstream Hlen Hpos Hsize.
  assert ((fetch st url).1 = false) as Hfalse.
  { unfold download_file, found_size, write_target. rewrite Hplace, Hfile.
    cbn [fmap option_fmap option_map]. unfold local_path in *. cbn [fst] in Hdir.
    rewrite bool_decide_eq_true_2 by (by right).
    rewrite Hget, Hlen, Hstream.
    destruct (Z.ltb_spec 0 declared); [|lia].
    destruct (Z.eqb_spec
                (Z.of_nat (len (written (chunks (http_get (length (requests st)) url)))))
                declared); [done|].
    done. }
  assert (found st url = None) as Hfound.
  { unfold found_size. by rewrite Hplace, Hfile. }
  destruct (download_file_fetch st url Hfound) as (Hreq & _ & _ & _ & Hsame).
  cbv zeta in Hreq, Hsame. specialize (Hsame Hfalse).
  split; [done|]. split; [by rewrite Hsame|]. split; [done|]. split; [done|].
  done.
Qed.

End BackupFacts.

(** Ten bytes declared, three received: the backup keeps no file and the
    next URL is downloaded in the same way. *)
Lemma size_mismatch_handling_witness :
  (download_file unquote_plain http_short nothing_elsewhere directory_4096
     empty_backup secret_url).1 = false /\
  backup_files
    (download_file unquote_plain http_short nothing_elsewhere directory_4096
       empty_backup secret_url).2
    !! local_path unquote_plain secret_url = None /\
  requests
    (download_all unquote_plain http_short nothing_elsewhere directory_4096
       [secret_url; other_url] empty_backup)
    = [secret_url; other_url].
Proof.
  destruct (size_mismatch_handling unquote_plain http_short nothing_elsewhere
              directory_4096 empty_backup secret_url 10) as [H _].
  destruct H as (Hres & Hnone & _ & _ & Hnext).
  - evaluate.
  - evaluate.
  - vm_compute. apply (bool_decide_unpack _). vm_compute. exact I.
  - evaluate.
  - evaluate.
  - evaluate.
  - lia.
  - evaluate.
  - split; [exact Hres|]. split; [exact Hnone|].
    rewrite Hnext. evaluate.
Defined.

(** C6, counterexample.  [download_audio_file] of the transcriber does not
    look at the declared length: with ten bytes declared and three
    received it returns the path and keeps the three bytes; and when the
    stream breaks it returns nothing and the three bytes stay on disk. *)
Lemma download_audio_file_keeps_partial_file :
  content_length (http_short 0 secret_url) = Some (Some 10%Z) /\
  len (written (chunks (http_short 0 secret_url))) = 3 /\
  (download_audio_file unquote_plain http_short nothing_elsewhere nothing_on_disk
     secret_url).1 = Some secret_mp3 /\
  out_files
    (download_audio_file unquote_plain http_short nothing_elsewhere nothing_on_disk
       secret_url).2 !! secret_mp3 = Some "abc" /\
  (download_audio_file unquote_plain http_broken nothing_elsewhere nothing_on_disk
     secret_url).1 = None /\
  out_files
    (download_audio_file unquote_plain http_broken nothing_elsewhere nothing_on_disk
       secret_url).2 !! secret_mp3 = Some "abc".
Proof. repeat split; evaluate. Qed.

(** ** The run of the transcriber *)

Section DictFacts.

Context {V : Type}.
Implicit Types d : list (string * V).

Lemma dict_get_set_eq k v d : PyDict.get k (PyDict.set k v d) = Some v.
Proof.
  induction d as [|[k' v'] d IH]; simpl.
  - by rewrite String.eqb_refl.
  - destruct (String.eqb_spec k' k) as [->|Hne]; simpl.
    + by rewrite String.eqb_refl.
    + apply String.eqb_neq in Hne. by rewrite Hne.
Qed.

Lemma dict_get_set_ne k k' v d :
  k <> k' -> PyDict.get k' (PyDict.set k v d) = PyDict.get k' d.
Proof.
  intros Hne. induction d as [|[k0 v0] d IH]; simpl.
  - apply String.eqb_neq in Hne. by rewrite Hne.
  - destruct (String.eqb_spec k0 k) as [->|Hk]; simpl.
    + apply String.eqb_neq in Hne. by rewrite Hne.
    + by rewrite IH.
Qed.

Lemma dict_get_set_is_Some k k' v d :
  is_Some (PyDict.get k' d) -> is_Some (PyDict.get k' (PyDict.set k v d)).
Proof.
  intros H. destruct (decide (k = k')) as [->|Hne].
  - rewrite dict_get_set_eq. eauto.
  - by rewrite dict_get_set_ne.
Qed.

End DictFacts.

Section PipelineFacts.

Variable scandir : gmap string string -> list (string * string).
Variable unquote : string -> string.
Variable http_get : nat -> string -> HttpResponse.
Variable whisper : nat -> string -> option string -> option (list string).
Variable ollama : nat -> string -> string -> OllamaReply.
Variable elsewhere : nat -> string -> PathState.
Variable json_dump : list (string * TranscriptRecord) -> string.

Implicit Types st : Transcriber.

Notation "st ⟶ st'" := (comes_after unquote st st') (at level 70).

Lemma comes_after_refl st : st ⟶ st.
Proof.
  split; [done|]. split; [done|]. exists []. by rewrite app_nil_r.
Qed.

Lemma due_earlier st st' e :
  dom (out_files st) ⊆ dom (out_files st') ->
  (forall k, is_Some (PyDict.get k (transcriptions st)) ->
             is_Some (PyDict.get k (transcriptions st'))) ->
  due unquote st' e -> due unquote st e.
Proof.
  intros Hf Ht. destruct e as [url|path|model]; simpl; [| |done].
  - intros H. apply not_elem_of_dom. apply not_elem_of_dom in H. set_solver.
  - intros H filename Hp. specialize (H filename Hp).
    destruct (PyDict.get filename (transcriptions st)) eqn:E; [|done].
    destruct (Ht filename) as [x Hx]; [by rewrite E|]. congruence.
Qed.

Lemma comes_after_trans st1 st2 st3 : st1 ⟶ st2 -> st2 ⟶ st3 -> st1 ⟶ st3.
Proof.
  intros (Hf & Ht & new & E & Hnew) (Hf' & Ht' & new' & E' & Hnew').
  split; [set_solver|]. split; [auto|].
  exists (new ++ new'). split; [by rewrite E', E, app_assoc|].
  apply Forall_app. split; [done|].
  eapply Forall_impl; [exact Hnew'|]. intros e. by apply due_earlier.
Qed.

Lemma comes_after_event st e : due unquote st e -> st ⟶ record_event e st.
Proof.
  intros H. split; [done|]. split; [done|]. exists [e]. split; [done|].
  by apply Forall_singleton.
Qed.

Lemma comes_after_write st name content :
  st ⟶ set_out_files (<[name := content]> (out_files st)) st.
Proof.
  split; [simpl; rewrite dom_insert; set_solver|]. split; [done|].
  exists []. by rewrite app_nil_r.
Qed.

Lemma comes_after_register st filename record :
  st ⟶ set_transcriptions (PyDict.set filename record (transcriptions st)) st.
Proof.
  split; [done|]. split; [intros k; apply dict_get_set_is_Some|].
  exists []. by rewrite app_nil_r.
Qed.

Lemma comes_after_cwd st files : st ⟶ set_cwd_files files st.
Proof.
  split; [done|]. split; [done|]. exists []. by rewrite app_nil_r.
Qed.

Lemma comes_after_save_title st filename title transcript :
  st ⟶ save_title_to_file st filename title transcript.
Proof. apply comes_after_write. Qed.

Lemma comes_after_try_models models prompt transcript filename st :
  st ⟶ (try_models ollama models prompt transcript filename st).2.
Proof.
  revert st. induction models as [|model rest IH]; intros st; [apply comes_after_refl|].
  assert (st ⟶ (try_models ollama rest prompt transcript filename
                   (record_event (EvOllama model) st)).2) as Hrest.
  { eapply comes_after_trans; [|apply IH]. by apply comes_after_event. }
  simpl.
  destruct (ollama (length (events st)) model prompt) as [|code [response|]]; [done| |done].
  destruct (code =? 200)%Z; [|done].
  destruct (refused (strip response)); [done|]. simpl.
  eapply comes_after_trans; [|apply comes_after_save_title].
  by apply comes_after_event.
Qed.

Lemma comes_after_generate_title st transcript filename :
  st ⟶ (generate_title_from_transcript scandir ollama st transcript filename).2.
Proof.
  unfold generate_title_from_transcript.
  destruct (load_human_titles scandir st !! filename); [apply comes_after_save_title|].
  pose proof (comes_after_try_models models_to_try (prompt_of transcript filename)
                transcript filename st) as H.
  destruct (try_models ollama models_to_try (prompt_of transcript filename)
              transcript filename st) as [[title|] st']; [done|].
  eapply comes_after_trans; [exact H|apply comes_after_save_title].
Qed.

(** A file that is on disk is not fetched. *)
Lemma download_audio_file_cached st url bytes :
  out_files st !! unquote (last_segment url) = Some bytes ->
  download_audio_file unquote http_get elsewhere st url = (Some (unquote (last_segment url)), st).
Proof. intros H. unfold download_audio_file. by rewrite H. Qed.

Lemma comes_after_download st url :
  st ⟶ (download_audio_file unquote http_get elsewhere st url).2.
Proof.
  unfold download_audio_file.
  destruct (out_files st !! unquote (last_segment url)) eqn:E; [apply comes_after_refl|].
  assert (st ⟶ record_event (EvHttpGet url) st) as Hev by (by apply comes_after_event).
  destruct (locate (unquote (last_segment url))) as [entry| | |].
  - destruct (out_files st !! entry); [apply comes_after_refl|].
    unfold fetch_entry. destruct (get_raises _); [done|].
    assert (st ⟶ set_out_files
                   (<[entry := written (chunks (http_get (length (events st)) url))]>
                      (out_files (record_event (EvHttpGet url) st)))
                   (record_event (EvHttpGet url) st)) as Hw.
    { eapply comes_after_trans; [exact Hev|apply comes_after_write]. }
    by destruct (stream_raises _).
  - apply comes_after_refl.
  - done.
  - destruct (elsewhere _ _); [apply comes_after_refl| |done].
    by destruct (_ || _).
Qed.

(** A file whose name is a key of [self.transcriptions] is not
    transcribed. *)
Lemma transcribe_audio_cached st filename record :
  PyDict.get filename (transcriptions st) = Some record ->
  transcribe_audio whisper st filename = (Some (tr_transcript record), st).
Proof. intros H. unfold transcribe_audio. by rewrite H. Qed.

Lemma output_path_inj a b : output_path a = output_path b -> a = b.
Proof. unfold output_path. apply (inj (String.app "audio_files/")). Qed.

Lemma comes_after_transcribe st filename :
  st ⟶ (transcribe_audio whisper st filename).2.
Proof.
  unfold transcribe_audio.
  destruct (PyDict.get filename (transcriptions st)) eqn:E; [apply comes_after_refl|].
  assert (st ⟶ record_event (EvWhisper (output_path filename)) st) as Hev.
  { apply comes_after_event. simpl. by intros f ->%output_path_inj. }
  destruct (whisper _ _ _) as [segments|]; [|done]. cbv zeta. cbn [snd].
  eapply comes_after_trans; [exact Hev|].
  eapply comes_after_trans; [|apply comes_after_register].
  apply comes_after_write.
Qed.

Lemma comes_after_process_urls urls url_to_title st :
  st ⟶ (process_urls scandir unquote http_get whisper ollama elsewhere urls url_to_title st).2.
Proof.
  revert url_to_title st. induction urls as [|url rest IH]; intros url_to_title st;
    [apply comes_after_refl|].
  simpl.
  pose proof (comes_after_download st url) as Hd.
  destruct (download_audio_file unquote http_get elsewhere st url) as [[audio|] st1]; simpl in Hd;
    [|by eapply comes_after_trans].
  pose proof (comes_after_transcribe st1 audio) as Ht.
  destruct (transcribe_audio whisper st1 audio) as [[transcript|] st2]; simpl in Ht;
    [|eapply comes_after_trans; [|apply IH]; by eapply comes_after_trans].
  assert (st ⟶ st2) as H2 by (by eapply comes_after_trans).
  destruct (String.eqb transcript EmptyString); [by eapply comes_after_trans|].
  pose proof (comes_after_generate_title st2 transcript audio) as Hg.
  destruct (generate_title_from_transcript scandir ollama st2 transcript audio)
    as [title st3]; simpl in Hg.
  eapply comes_after_trans; [|apply IH]. by eapply comes_after_trans.
Qed.

Lemma comes_after_add_titles items st :
  st ⟶ add_titles scandir ollama items st.
Proof.
  revert st. induction items as [|[filename info] rest IH]; intros st;
    [apply comes_after_refl|].
  simpl. destruct (tr_title info); [apply IH|].
  pose proof (comes_after_generate_title st (tr_transcript info) filename) as Hg.
  destruct (generate_title_from_transcript scandir ollama st (tr_transcript info) filename)
    as [title st1]; simpl in Hg.
  eapply comes_after_trans; [exact Hg|].
  eapply comes_after_trans; [apply comes_after_register|apply IH].
Qed.

Lemma comes_after_save_transcriptions st :
  st ⟶ save_transcriptions scandir ollama json_dump st.
Proof.
  unfold save_transcriptions.
  eapply comes_after_trans; [apply comes_after_add_titles|apply comes_after_cwd].
Qed.

Lemma comes_after_update_html_file st html_file url_to_title :
  st ⟶ (update_html_file st html_file url_to_title).2.
Proof.
  unfold update_html_file.
  destruct (update_html html_file url_to_title (cwd_files st)). apply comes_after_cwd.
Qed.

Lemma comes_after_run st :
  st ⟶ (run_complete_workflow scandir unquote http_get whisper ollama elsewhere json_dump st).2.
Proof.
  unfold run_complete_workflow, process_html_file.
  destruct (cwd_files st !! "index.html") as [content|]; simpl;
    [|apply comes_after_save_transcriptions].
  pose proof (comes_after_process_urls (extract_audio_urls (read_text content)) [] st)
    as Hp.
  destruct (process_urls scandir unquote http_get whisper ollama elsewhere
              (extract_audio_urls (read_text content)) [] st) as [url_to_title st1];
    simpl in Hp.
  pose proof (comes_after_update_html_file st1 "index.html" url_to_title) as Hu.
  destruct (update_html_file st1 "index.html" url_to_title) as [[|] st2]; simpl in Hu.
  - eapply comes_after_trans; [exact Hp|].
    eapply comes_after_trans; [exact Hu|apply comes_after_save_transcriptions].
  - by eapply comes_after_trans.
Qed.

(** C1. A file whose name is a key of [self.transcriptions] gets its
    recorded transcript and Whisper is not called; a file that is in the
    output directory is not fetched; and in a run every download is that
    of a file absent from the directory when the run began, every
    transcription that of a file absent from the dictionary when the run
    began. *)
Theorem transcript_cache_in_memory st :
  (forall filename record,
     PyDict.get filename (transcriptions st) = Some record ->
     transcribe_audio whisper st filename = (Some (tr_transcript record), st)) /\
  (forall url bytes,
     out_files st !! unquote (last_segment url) = Some bytes ->
     download_audio_file unquote http_get elsewhere st url =
       (Some (unquote (last_segment url)), st)) /\
  exists new,
    events (run_complete_workflow scandir unquote http_get whisper ollama elsewhere json_dump st).2
      = events st ++ new /\
    Forall (due unquote st) new.
Proof.
  split; [apply transcribe_audio_cached|]. split; [apply download_audio_file_cached|].
  by destruct (comes_after_run st) as (_ & _ & H).
Qed.

End PipelineFacts.

(** The transcript of [01+secret.mp3] is in the dictionary: it is returned
    and nothing is called. *)
Lemma transcript_cache_in_memory_witness :
  transcribe_audio whisper_fixed first_run.2 secret_mp3 =
    (Some "Hello world. It was wild.", first_run.2).
Proof.
  destruct (transcript_cache_in_memory scandir_map unquote_plain http_ok whisper_fixed
              ollama_down nothing_elsewhere json_plain first_run.2) as (H & _ & _).
  destruct (PyDict.get secret_mp3 (transcriptions first_run.2)) as [record|] eqn:E;
    [|vm_compute in E; discriminate].
  rewrite (H secret_mp3 record E). f_equal. f_equal.
  vm_compute in E. injection E as <-. reflexivity.
Defined.

(** C1, counterexample.  A transcript file made earlier is on disk and the
    dictionary is empty: Whisper is called and its text is returned, not
    that of the file.  And the second run of the whole workflow, in which
    the two transcript files of the first run are on disk, fetches nothing
    but transcribes the two files again. *)
Lemma transcript_file_is_not_consulted :
  out_files transcribed_earlier !! "01+secret.txt" = Some "An earlier transcript." /\
  (transcribe_audio whisper_fixed transcribed_earlier secret_mp3).1
    = Some "Hello world. It was wild." /\
  events (transcribe_audio whisper_fixed transcribed_earlier secret_mp3).2
    = [EvWhisper "audio_files/01+secret.mp3"] /\
  out_files (restart first_run.2) !! "01+secret.txt" = Some "Hello world. It was wild." /\
  out_files (restart first_run.2) !! "02+other.txt" = Some "Hello world. It was wild." /\
  events second_run.2 =
    [EvWhisper "audio_files/01+secret.mp3"; EvWhisper "audio_files/02+other.mp3"].
Proof. repeat split; evaluate. Qed.

(** * Further properties of the tools *)

(** ** Title resolution: what is written and which models are called *)

Section ResolutionEffects.

Variable scandir : gmap string string -> list (string * string).
Variable ollama : nat -> string -> string -> OllamaReply.

Implicit Types st : Transcriber.

(** A reply that does not fall through is a text, received with the
    status 200, that is no refusal. *)
Lemma falls_through_false reply :
  falls_through reply = false ->
  exists response,
    reply = PostStatus 200 (Some response) /\ refused (strip response) = false.
Proof.
  destruct reply as [|code [response|]]; [done| |done]. cbn [falls_through].
  destruct (Z.eqb_spec code 200) as [->|]; [|done]. intros H. by exists response.
Qed.

(** The loop over the models calls them in order and stops at the first
    accepted response; it writes the title file when it accepts and
    nothing otherwise. *)
Lemma try_models_trace models prompt transcript filename st :
  let result := try_models ollama models prompt transcript filename st in
  exists k,
    k <= length models /\
    events result.2 = events st ++ (EvOllama <$> firstn k models) /\
    cwd_files result.2 = cwd_files st /\
    transcriptions result.2 = transcriptions st /\
    (forall i model, models !! i = Some model -> S i < k ->
       falls_through (ollama (length (events st) + i) model prompt) = true) /\
    match result.1 with
    | Some title =>
        (exists model,
           models !! (k - 1) = Some model /\ 0 < k /\
           falls_through (ollama (length (events st) + (k - 1)) model prompt) = false) /\
        out_files result.2 =
          <[title_file_name filename := title_file_content filename title transcript]>
            (out_files st)
    | None => k = length models /\ out_files result.2 = out_files st
    end.
Proof.
  revert st. induction models as [|model rest IH]; intros st.
  { exists 0. cbn. rewrite app_nil_r. repeat split; try done. }
  cbv zeta.
  destruct (falls_through (ollama (length (events st)) model prompt)) eqn:Hfall.
  - rewrite (try_models_skip ollama) by done.
    destruct (IH (record_event (EvOllama model) st))
      as (k & Hk & Hev & Hcwd & Htr & Hbefore & Hres).
    cbv zeta in Hev, Hcwd, Htr, Hres.
    assert (forall i, length (events (record_event (EvOllama model) st)) + i
                      = length (events st) + S i) as Hlen.
    { intros i. cbn [events record_event]. rewrite length_app. cbn [length]. lia. }
    exists (S k). split; [cbn [length]; lia|].
    split; [rewrite Hev; cbn [events record_event firstn fmap list_fmap];
            by rewrite <- app_assoc|].
    split; [done|]. split; [done|]. split.
    + intros [|i] m Hm Hi.
      * cbn in Hm. injection Hm as <-. by rewrite Nat.add_0_r.
      * cbn in Hm. rewrite <- Hlen. apply Hbefore; [done|lia].
    + destruct (try_models ollama rest prompt transcript filename
                  (record_event (EvOllama model) st)).1.
      * destruct Hres as [(m & Hm & Hpos & Hlast) ->]. split; [|done].
        exists m. replace (S k - 1) with (S (k - 1)) by lia.
        split; [done|]. split; [lia|]. by rewrite <- Hlen.
      * destruct Hres as [-> ->]. done.
  - destruct (falls_through_false _ Hfall) as (response & Hreply & Hok).
    cbn [try_models]. rewrite Hreply. cbn [Z.eqb Pos.eqb]. rewrite Hok.
    exists 1. cbn [fst snd length firstn events cwd_files transcriptions out_files
                   save_title_to_file set_out_files record_event fmap list_fmap].
    split; [lia|]. split; [done|]. split; [done|]. split; [done|].
    split; [intros i m _ Hi; lia|]. split; [|done].
    exists model. cbn. rewrite Nat.add_0_r. split; [done|]. split; [lia|done].
Qed.

(** What a resolution writes. *)
Lemma generate_title_effects st transcript filename :
  let result := generate_title_from_transcript scandir ollama st transcript filename in
  out_files result.2 =
    <[title_file_name filename := title_file_content filename result.1 transcript]>
      (out_files st) /\
  cwd_files result.2 = cwd_files st /\
  transcriptions result.2 = transcriptions st.
Proof.
  unfold generate_title_from_transcript.
  destruct (load_human_titles scandir st !! filename) as [title|]; [done|].
  pose proof (try_models_trace models_to_try (prompt_of transcript filename)
                transcript filename st) as (k & _ & _ & Hcwd & Htr & _ & Hres).
  destruct (try_models ollama models_to_try (prompt_of transcript filename)
              transcript filename st) as [[title|] st']; simpl in *.
  - by destruct Hres as [_ ->].
  - destruct Hres as [_ ->]. by rewrite Hcwd, Htr.
Qed.

(** X1. Every resolution, by a human title, a model or the heuristic,
    writes the title file of the file name with the title it returns, and
    changes no other file, no document and no transcription. *)
Theorem generate_title_writes_title_file st transcript filename :
  let result := generate_title_from_transcript scandir ollama st transcript filename in
  out_files result.2 =
    <[title_file_name filename := title_file_content filename result.1 transcript]>
      (out_files st) /\
  cwd_files result.2 = cwd_files st /\
  transcriptions result.2 = transcriptions st.
Proof. apply generate_title_effects. Qed.

(** X2. A resolution calls the models of the list in their order and
    stops at the first accepted response: with a human title it calls
    none; otherwise the models called are the first [k] of the list, every
    reply before the last one fell through, and when fewer than the four
    were called the last reply was accepted. *)
Theorem generate_title_calls_models_in_order st transcript filename :
  let result := generate_title_from_transcript scandir ollama st transcript filename in
  let reply i model :=
    ollama (length (events st) + i) model (prompt_of transcript filename) in
  exists k,
    k <= 4 /\
    events result.2 = events st ++ (EvOllama <$> firstn k models_to_try) /\
    (is_Some (load_human_titles scandir st !! filename) -> k = 0) /\
    (load_human_titles scandir st !! filename = None ->
     0 < k /\
     (forall i model, models_to_try !! i = Some model -> S i < k ->
        falls_through (reply i model) = true) /\
     (k < 4 ->
      exists model,
        models_to_try !! (k - 1) = Some model /\
        falls_through (reply (k - 1) model) = false)).
Proof.
  cbv zeta. unfold generate_title_from_transcript.
  destruct (load_human_titles scandir st !! filename) as [title|] eqn:Hh.
  { exists 0. cbn. rewrite app_nil_r. split; [lia|]. split; [done|]. split; done. }
  pose proof (try_models_trace models_to_try (prompt_of transcript filename)
                transcript filename st) as (k & Hk & Hev & _ & _ & Hbefore & Hres).
  cbv zeta in Hev, Hres.
  exists k. split; [exact Hk|].
  destruct (try_models ollama models_to_try (prompt_of transcript filename)
              transcript filename st) as [[title|] st']; cbn [fst snd] in *.
  - split; [done|]. split; [by intros [? ?]|]. intros _.
    destruct Hres as [(model & Hm & Hpos & Hlast) _].
    split; [done|]. split; [done|]. intros _. by exists model.
  - split; [done|]. split; [by intros [? ?]|]. intros _.
    destruct Hres as [-> _]. split; [cbn; lia|]. split; [done|].
    cbn. lia.
Qed.

End ResolutionEffects.

(** ** The caches of the transcriber *)

Section CacheFacts.

Variable unquote : string -> string.
Variable http_get : nat -> string -> HttpResponse.
Variable whisper : nat -> string -> option string -> option (list string).
Variable elsewhere : nat -> string -> PathState.

Implicit Types st : Transcriber.

(** X3. For a URL whose file name is a plain name of the output
    directory: once [requests.get] has answered, the bytes received are in
    the output directory, be the stream complete or broken, and every
    later call for the URL returns the path without any request. *)
Theorem download_audio_file_trusts_presence st url :
  let filename := unquote (last_segment url) in
  let response := http_get (length (events st)) url in
  let st1 := (download_audio_file unquote http_get elsewhere st url).2 in
  locate filename = Entry filename ->
  out_files st !! filename = None ->
  get_raises response = false ->
  (download_audio_file unquote http_get elsewhere st url).1 =
    (if stream_raises response then None else Some filename) /\
  out_files st1 !! filename = Some (written (chunks response)) /\
  events st1 = events st ++ [EvHttpGet url] /\
  forall (http_get' : nat -> string -> HttpResponse)
         (elsewhere' : nat -> string -> PathState),
    download_audio_file unquote http_get' elsewhere' st1 url = (Some filename, st1).
Proof.
  simpl. intros Hplain Hfile Hget.
  set (st1 := set_out_files
                (<[unquote (last_segment url) :=
                     written (chunks (http_get (length (events st)) url))]>
                   (out_files (record_event (EvHttpGet url) st)))
                (record_event (EvHttpGet url) st)).
  assert (download_audio_file unquote http_get elsewhere st url =
          (if stream_raises (http_get (length (events st)) url)
           then None else Some (unquote (last_segment url)), st1)) as ->.
  { unfold download_audio_file. rewrite Hfile, Hplain, Hfile.
    unfold fetch_entry. rewrite Hget. by destruct (stream_raises _). }
  assert (out_files st1 !! unquote (last_segment url) =
          Some (written (chunks (http_get (length (events st)) url)))) as Hw.
  { apply lookup_insert_eq. }
  cbn [fst snd]. split; [done|]. split; [done|]. split; [done|].
  intros http_get' elsewhere'.
  apply (download_audio_file_cached unquote http_get' elsewhere' st1 url _ Hw).
Qed.

(** X4. A transcription that succeeds writes the segments, joined by
    spaces, to the transcript file and records them under the file name;
    the next call returns the same text without calling Whisper. *)
Theorem transcribe_audio_registers st filename segments :
  PyDict.get filename (transcriptions st) = None ->
  whisper (length (events st)) (output_path filename) (out_files st !! filename)
    = Some segments ->
  let transcript := join " " segments in
  let st1 := (transcribe_audio whisper st filename).2 in
  (transcribe_audio whisper st filename).1 = Some transcript /\
  out_files st1 = <[replace ".mp3" ".txt" filename := transcript]> (out_files st) /\
  (tr_transcript <$> PyDict.get filename (transcriptions st1)) = Some transcript /\
  forall (whisper' : nat -> string -> option string -> option (list string)),
    transcribe_audio whisper' st1 filename = (Some transcript, st1).
Proof.
  intros Hmem Hw. simpl.
  set (record := {| tr_transcript := join " " segments;
                    tr_audio_path := output_path filename;
                    tr_transcript_path := output_path (replace ".mp3" ".txt" filename);
                    tr_title := None |}).
  set (st0 := set_out_files
                (<[replace ".mp3" ".txt" filename := join " " segments]>
                   (out_files (record_event (EvWhisper (output_path filename)) st)))
                (record_event (EvWhisper (output_path filename)) st)).
  set (st1 := set_transcriptions
                (PyDict.set filename record (transcriptions st0)) st0).
  assert (transcribe_audio whisper st filename = (Some (join " " segments), st1)) as ->.
  { unfold transcribe_audio. by rewrite Hmem, Hw. }
  assert (PyDict.get filename (transcriptions st1) = Some record) as Hget.
  { apply dict_get_set_eq. }
  cbn [fst snd].
  split; [done|]. split; [done|]. split; [by rewrite Hget|].
  intros whisper'. by rewrite (transcribe_audio_cached whisper' st1 filename record Hget).
Qed.

End CacheFacts.

(** ** The backup downloader *)

Section BackupInvariants.

Variable unquote : string -> string.
Variable http_get : nat -> string -> HttpResponse.
Variable elsewhere : nat -> string -> PathState.
Variable directory_size : string -> nat.

Implicit Types st : Downloader.

Local Notation fetch := (download_file unquote http_get elsewhere directory_size).
Local Notation fetch_all := (download_all unquote http_get elsewhere directory_size).
Local Notation found := (found_size unquote elsewhere directory_size).

(** A download leaves the files that are there. *)
Lemma download_file_keeps st url path bytes :
  backup_files st !! path = Some bytes ->
  backup_files (fetch st url).2 !! path = Some bytes.
Proof.
  intros H. destruct (found st url) as [size|] eqn:Hfound.
  { by rewrite (download_file_found unquote http_get elsewhere directory_size
                  st url size Hfound). }
  destruct (download_file_fetch unquote http_get elsewhere directory_size st url Hfound)
    as (_ & _ & _ & [-> | (key & _ & Hnone & _ & ->)] & _); [done|].
  rewrite lookup_insert_ne; [done|]. intros <-. congruence.
Qed.

(** X5. The downloader never rewrites or deletes a file that it finds in
    the backup: whatever the servers answer, a file present before the
    loop is there after it with the same bytes. *)
Theorem download_all_keeps_existing_files urls st path bytes :
  backup_files st !! path = Some bytes ->
  backup_files (download_all unquote http_get elsewhere directory_size urls st) !! path
    = Some bytes.
Proof.
  revert st. induction urls as [|url rest IH]; intros st H; [done|].
  cbn [download_all]. by apply IH, download_file_keeps.
Qed.

(** The requests of the loop and its counters. *)
Lemma download_all_trace urls st :
  let st' := fetch_all urls st in
  (exists new, requests st' = requests st ++ new /\ sublist new urls) /\
  downloaded (stats st') + skipped (stats st') + failed (stats st') <=
    downloaded (stats st) + skipped (stats st) + failed (stats st) + length urls /\
  downloaded (stats st) <= downloaded (stats st') /\
  skipped (stats st) <= skipped (stats st') /\
  failed (stats st) <= failed (stats st') /\
  total_files (stats st') = total_files (stats st).
Proof.
  revert st. induction urls as [|url rest IH]; intros st; cbn [download_all length].
  { split; [|lia]. exists []. by rewrite app_nil_r. }
  destruct (IH (fetch st url).2) as ((new & Hreq & Hsub) & IHstats).
  cbv zeta in Hreq, IHstats.
  destruct (found st url) as [size|] eqn:Hfound.
  - rewrite (download_file_found unquote http_get elsewhere directory_size
               st url size Hfound) in *.
    cbn [fst snd stats set_stats count_skipped requests downloaded skipped failed
         total_files] in *.
    split; [|lia]. exists new. split; [done|]. by apply sublist_cons.
  - destruct (download_file_fetch unquote http_get elsewhere directory_size
                st url Hfound) as (Hone & _ & Hcount & _).
    cbv zeta in Hone, Hcount. split.
    + exists (url :: new). rewrite Hreq, Hone, <- app_assoc. split; [done|].
      by apply sublist_skip.
    + unfold counted_once in Hcount.
      destruct ((fetch st url).1); lia.
Qed.


End BackupInvariants.

(** ** Replacement templates and substitutions *)

Section Templates.

Implicit Types s : string.

(** A replacement without backslash stands for itself. *)
Lemma parse_template_literal groups s :
  has_char backslash s = false ->
  exists parts,
    Re.parse_template groups s = Some parts /\
    forall found, Re.expand parts found = s.
Proof.
  unfold Re.parse_template. induction s as [|c s IH]; intros H.
  - exists []. done.
  - simpl in H. apply orb_false_iff in H as [Hc Hs].
    destruct (IH Hs) as (parts & Hp & He).
    exists (Re.TLit c :: parts). split.
    + simpl. unfold Re.template_normal. rewrite Hc. by rewrite Hp.
    + intros found. simpl. by rewrite He.
Qed.

Lemma parse_template_from_literal_app groups p rest :
  has_char backslash p = false ->
  Re.parse_template_from groups Re.TNormal (p +:+ rest) =
  match Re.parse_template_from groups Re.TNormal rest with
  | Some parts => Some ((Re.TLit <$> list_ascii_of_string p) ++ parts)
  | None => None
  end.
Proof.
  induction p as [|c p IH]; intros H.
  - rewrite app_nil_str. by destruct (Re.parse_template_from _ _ _).
  - simpl in H. apply orb_false_iff in H as [Hc Hp].
    rewrite app_cons_str. simpl. unfold Re.template_normal. rewrite Hc, (IH Hp).
    by destruct (Re.parse_template_from groups Re.TNormal rest).
Qed.

Lemma expand_literal_app p parts found :
  Re.expand ((Re.TLit <$> list_ascii_of_string p) ++ parts) found =
  p +:+ Re.expand parts found.
Proof.
  induction p as [|c p IH]; [done|].
  rewrite app_cons_str. simpl. f_equal. exact IH.
Qed.

(** Where the pattern matches nowhere, [re.sub] returns its text. *)
Lemma sub_from_no_match match_at parts s :
  search match_at s = false -> Re.sub_from match_at parts 0 s = s.
Proof.
  induction s as [|c s IH]; [done|]. simpl.
  intros [Hm Hs]%orb_false_iff.
  destruct (match_at (String c s)) as [[found n]|]; [done|].
  by rewrite IH.
Qed.

Lemma has_char_li_open url :
  has_char backslash url = false -> has_char backslash (Re.li_open url) = false.
Proof.
  intros Hu. unfold Re.li_open. rewrite !has_char_app, Hu. reflexivity.
Qed.

(** The replacement of the list-item substitution, when neither the URL
    nor the title has a backslash. *)
Lemma li_template url title :
  has_char backslash url = false ->
  has_char backslash title = false ->
  exists parts,
    Re.parse_template 0 (Re.li_open url +:+ title +:+ "</li>") = Some parts /\
    forall found, Re.expand parts found = Re.li_open url +:+ title +:+ "</li>".
Proof.
  intros Hu Ht. apply parse_template_literal.
  rewrite !has_char_app, Ht, has_char_li_open by done. reflexivity.
Qed.

Lemma has_char_audio_open url :
  has_char backslash url = false -> has_char backslash (Re.audio_open url) = false.
Proof.
  intros Hu. unfold Re.audio_open. rewrite !has_char_app, Hu. reflexivity.
Qed.

(** The replacement of the caption substitution. *)
Lemma span_template url title :
  has_char backslash url = false ->
  has_char backslash title = false ->
  exists parts,
    Re.parse_template 1
      (Re.span_open +:+ char backslash +:+ "1. " +:+ title +:+ Re.audio_open url)
      = Some parts /\
    forall whole index,
      Re.expand parts [whole; index] =
      Re.span_open +:+ index +:+ ". " +:+ title +:+ Re.audio_open url.
Proof.
  intros Hu Ht.
  destruct (parse_template_literal 1 (" " +:+ title +:+ Re.audio_open url))
    as (tail & Htail & Hexp).
  { rewrite !has_char_app, Ht, has_char_audio_open by done. reflexivity. }
  exists ((Re.TLit <$> list_ascii_of_string Re.span_open) ++
          Re.TGroup 1 :: Re.TLit "." :: tail).
  split.
  - unfold Re.parse_template.
    rewrite parse_template_from_literal_app by reflexivity.
    change (char backslash +:+ "1. " +:+ title +:+ Re.audio_open url)
      with (String backslash (String "1" (String "."
              (" " +:+ title +:+ Re.audio_open url)))).
    unfold Re.parse_template in Htail.
    cbn [Re.parse_template_from]. 
    change (Re.template_step 1 Re.TNormal backslash) with (Some (Re.TEscape, @nil Re.TemplatePart)).
    cbv iota beta.
    change (Re.template_step 1 Re.TEscape "1") with (Some (Re.TDigit1 1, @nil Re.TemplatePart)).
    cbv iota beta.
    change (Re.template_step 1 (Re.TDigit1 1) ".")
      with (Some (Re.TNormal, [Re.TGroup 1; Re.TLit "."])).
    cbv iota beta. rewrite Htail. reflexivity.
  - intros whole index. rewrite expand_literal_app. simpl. rewrite Hexp.
    change (". " +:+ title +:+ Re.audio_open url)
      with (String "." (" " +:+ title +:+ Re.audio_open url)).
    by rewrite <- app_cons_str.
Qed.

(** X7. A URL that matches nowhere in the document leaves it as it is,
    when neither the URL nor its title has a backslash. *)
Theorem patch_url_without_match content url title :
  has_char backslash url = false ->
  has_char backslash title = false ->
  search (Re.match_span_at url) content = false ->
  search (Re.match_li_at url) content = false ->
  patch_url content (url, title) = Some content.
Proof.
  intros Hu Ht Hspan Hli. unfold patch_url, Re.sub.
  destruct (span_template url title Hu Ht) as (sparts & -> & _).
  destruct (li_template url title Hu Ht) as (lparts & Hl & _).
  simpl. rewrite sub_from_no_match by done. rewrite Hl. simpl.
  by rewrite sub_from_no_match.
Qed.

End Templates.

(** ** The list-item substitution changes the items of its URL only *)

Section Frame.

Lemma take_while_not_lt s : has_char "<" (Re.take_while Re.not_lt s) = false.
Proof.
  induction s as [|c s IH]; [done|]. simpl.
  unfold Re.not_lt at 1. destruct (Ascii.eqb c "<") eqn:E; [done|].
  simpl. by rewrite E.
Qed.

(** A match of the list-item pattern at the start of a text. *)
Lemma match_li_at_item url s found n :
  Re.match_li_at url s = Some (found, n) ->
  exists text rest,
    s = (Re.li_open url +:+ text +:+ "</li>") +:+ rest /\
    text <> EmptyString /\
    has_char "<" text = false /\
    n = len (Re.li_open url +:+ text +:+ "</li>").
Proof.
  unfold Re.match_li_at.
  destruct (startswith (Re.li_open url) s) eqn:Hp; [|done].
  set (rest := drop (len (Re.li_open url)) s).
  set (text := Re.take_while Re.not_lt rest).
  destruct ((1 <=? len text) && startswith "</li>" (drop (len text) rest)) eqn:Hc; [|done].
  apply andb_true_iff in Hc as [Hlen Hclose].
  intros [= <- <-].
  exists text, (drop 5 (drop (len text) rest)).
  split; [|split; [|split]].
  - rewrite (startswith_split _ _ Hp) at 1. fold rest.
    rewrite (take_while_split Re.not_lt rest) at 1. fold text.
    rewrite (startswith_split _ _ Hclose) at 1.
    by rewrite !app_assoc_str.
  - intros E. rewrite E in Hlen. done.
  - apply take_while_not_lt.
  - unfold Re.li_open. rewrite !len_app.
    change (len "data-audio=") with 11. change (len (char dquote)) with 1.
    change (len ">") with 1. change (len EmptyString) with 0.
    change (len "</li>") with 5. fold text. lia.
Qed.

Lemma take_while_item text rest :
  has_char "<" text = false ->
  Re.take_while Re.not_lt (text +:+ "</li>" +:+ rest) = text.
Proof.
  induction text as [|c text IH]; [done|]. cbn [has_char].
  intros [Hc Ht]%orb_false_iff. rewrite app_cons_str. cbn [Re.take_while].
  unfold Re.not_lt at 1. rewrite Hc. cbn [negb]. by rewrite IH.
Qed.

(** The pattern matches where an item stands. *)
Lemma match_li_at_complete url text rest s :
  item_at url text rest s -> is_Some (Re.match_li_at url s).
Proof.
  intros (Hne & Hlt & ->). unfold Re.match_li_at.
  rewrite startswith_app, drop_app_len, take_while_item by done.
  rewrite drop_app_len, startswith_app.
  destruct text; [done|]. rewrite len_cons. cbn. eauto.
Qed.

Lemma sub_from_skip match_at parts x rest :
  Re.sub_from match_at parts (len x) (x +:+ rest) = Re.sub_from match_at parts 0 rest.
Proof.
  induction x as [|c x IH]; [done|].
  rewrite app_cons_str, len_cons. simpl. exact IH.
Qed.

Lemma retitled_sub_from url title parts n :
  (forall found, Re.expand parts found = Re.li_open url +:+ title +:+ "</li>") ->
  forall s, len s <= n ->
    retitled url title s (Re.sub_from (Re.match_li_at url) parts 0 s).
Proof.
  intros Hexp. induction n as [|n IH]; intros s Hn.
  { destruct s; [constructor|]. rewrite len_cons in Hn. lia. }
  destruct s as [|c r]; [constructor|].
  rewrite len_cons in Hn. simpl.
  destruct (Re.match_li_at url (String c r)) as [[found k]|] eqn:Hm.
  - destruct (match_li_at_item _ _ _ _ Hm) as (text & rest & Hs & Hne & Hlt & ->).
    rewrite Hexp.
    set (item := Re.li_open url +:+ text +:+ "</li>") in *.
    destruct item as [|c' item'] eqn:Hitem.
    { apply (f_equal len) in Hitem. unfold item in Hitem.
      rewrite !len_app in Hitem. change (len "</li>") with 5 in Hitem.
      change (len EmptyString) with 0 in Hitem. lia. }
    rewrite app_cons_str in Hs. injection Hs as -> ->.
    rewrite len_cons. replace (S (len item') - 1) with (len item') by lia.
    rewrite sub_from_skip.
    replace (String c' (item' +:+ rest)) with (item +:+ rest)
      by (by rewrite Hitem, app_cons_str).
    unfold item. rewrite !app_assoc_str.
    apply retitled_item; [done|done|].
    apply IH. rewrite len_app in Hn. lia.
  - apply retitled_keep; [|apply IH; lia].
    intros text rest Hitem. apply match_li_at_complete in Hitem as [? Hitem].
    congruence.
Qed.

(** X8. The list-item substitution for a URL, when neither the URL nor
    the title has a backslash, completes, and what it returns is the text
    in which every list item of that very URL, found from left to right,
    has got the title for its text, every other character being kept in
    its place. *)
Theorem li_substitution_frame url title s :
  has_char backslash url = false ->
  has_char backslash title = false ->
  exists out,
    Re.sub 0 (Re.match_li_at url) (Re.li_open url +:+ title +:+ "</li>") s = Some out /\
    retitled url title s out.
Proof.
  intros Hu Ht. destruct (li_template url title Hu Ht) as (parts & Hp & Hexp).
  exists (Re.sub_from (Re.match_li_at url) parts 0 s).
  split; [unfold Re.sub; by rewrite Hp|].
  by apply (retitled_sub_from url title parts (len s)).
Qed.

End Frame.

(** ** What a patch run does to the files *)

Section PatchFiles.

Implicit Types files : gmap string string.

(** X9. A run of [update_html_file] touches the document and its backup
    only.  When it completes the document holds the patched text of the
    document as it was read; when it raises, for a missing document or an
    ill-formed replacement, the document is as it was. *)
Theorem update_html_outcome html_file url_to_title files :
  let result := update_html html_file url_to_title files in
  (forall name, name <> html_file -> name <> html_file +:+ ".backup" ->
     result.2 !! name = files !! name) /\
  match result.1 with
  | Completed =>
      exists stored updated_content,
        files !! html_file = Some stored /\
        patch_all url_to_title (read_text stored) = Some updated_content /\
        result.2 !! html_file = Some updated_content
  | Raised =>
      result.2 !! html_file = files !! html_file /\
      (files !! html_file = None \/
       exists stored, files !! html_file = Some stored /\
                      patch_all url_to_title (read_text stored) = None)
  end.
Proof.
  simpl. unfold update_html.
  destruct (files !! html_file) as [stored|] eqn:Hdoc; [|split; [done|]; split; auto].
  set (files1 := match files !! (html_file +:+ ".backup") with
                 | Some _ => files
                 | None => <[html_file +:+ ".backup" := read_text stored]> files
                 end).
  assert (forall name, name <> html_file +:+ ".backup" -> files1 !! name = files !! name)
    as Hother.
  { intros name Hne. unfold files1.
    destruct (files !! (html_file +:+ ".backup")); [done|].
    by rewrite lookup_insert_ne. }
  destruct (patch_all url_to_title (read_text stored)) as [updated|] eqn:Hpatch; simpl.
  - split.
    + intros name Hn Hb. rewrite lookup_insert_ne by done. by apply Hother.
    + exists stored, updated. split; [done|]. split; [done|]. apply lookup_insert_eq.
  - split; [intros name _ Hb; by apply Hother|].
    split; [rewrite Hother, Hdoc; [done|apply backup_name_fresh]|].
    right. by exists stored.
Qed.

Lemma apply_all_without_match url_to_title content :
  (forall url title, (url, title) ∈ url_to_title ->
     search (Re.match_span_at url) content = false) ->
  apply_all url_to_title content = Some content.
Proof.
  induction url_to_title as [|[url title] rest IH]; intros H; [done|].
  simpl. rewrite (H url title) by left. simpl. apply IH.
  intros u t Hin. apply (H u t). by right.
Qed.

(** X10. [apply_existing_titles] looks for a caption before it substitutes:
    when no URL of the mapping has a caption in the text of [index.html],
    it completes whatever the titles are, backslashes included; the
    document is written back with the text that was read, and a backup
    that is made holds that text. *)
Theorem apply_existing_titles_without_match url_to_title files stored :
  files !! "index.html" = Some stored ->
  (forall url title, (url, title) ∈ url_to_title ->
     search (Re.match_span_at url) (read_text stored) = false) ->
  let result := apply_existing_titles url_to_title files in
  result.1 = Completed /\
  result.2 !! "index.html" = Some (read_text stored) /\
  result.2 !! "index.html.backup" =
    match files !! "index.html.backup" with
    | Some backup => Some backup
    | None => Some (read_text stored)
    end.
Proof.
  intros Hdoc Hm. simpl.
  split; [|split].
  - unfold apply_existing_titles. rewrite Hdoc. cbv zeta.
    rewrite apply_all_without_match by done. done.
  - unfold apply_existing_titles. rewrite Hdoc. cbv zeta.
    rewrite apply_all_without_match by done.
    apply lookup_insert_eq.
  - rewrite apply_existing_titles_backup, Hdoc. done.
Qed.

End PatchFiles.

(** ** The parts of a URL *)

Section UrlParts.

Lemma split_nonempty sep s : split sep s <> [].
Proof.
  destruct s as [|c r]; simpl; [done|].
  destruct (Ascii.eqb c sep); [done|]. by destruct (split sep r).
Qed.

(** Splitting goes through a separator. *)
Lemma split_app sep x y :
  split sep (x +:+ String sep y) = split sep x ++ split sep y.
Proof.
  induction x as [|c x IH].
  - rewrite app_nil_str. simpl. by rewrite Ascii.eqb_refl.
  - rewrite app_cons_str. simpl. rewrite IH.
    destruct (Ascii.eqb c sep); [done|].
    pose proof (split_nonempty sep x).
    by destruct (split sep x).
Qed.

Lemma split_without_sep sep s : has_char sep s = false -> split sep s = [s].
Proof.
  induction s as [|c s IH]; [done|]. simpl.
  intros [Hc Hs]%orb_false_iff. by rewrite Hc, (IH Hs).
Qed.

(** X11. For a URL that ends with [/category/name], neither part holding a
    slash, the file name is [name] and the category is [category]; a text
    without slash is its own file name, of category [unknown]. *)
Theorem url_parts base category name :
  has_char "/" category = false ->
  has_char "/" name = false ->
  let url := base +:+ "/" +:+ category +:+ "/" +:+ name in
  last_segment url = name /\
  category_of url = category /\
  last_segment name = name /\
  category_of name = "unknown".
Proof.
  intros Hc Hn. simpl.
  assert (split "/" (base +:+ "/" +:+ category +:+ "/" +:+ name) =
          split "/" base ++ [category; name]) as Hsplit.
  { change ("/" +:+ category +:+ "/" +:+ name)
      with (String "/" (category +:+ String "/" name)).
    rewrite split_app, split_app.
    by rewrite (split_without_sep _ _ Hc), (split_without_sep _ _ Hn). }
  unfold last_segment, category_of. rewrite Hsplit, (split_without_sep _ _ Hn).
  split; [|split; [|done]].
  - by rewrite last_app.
  - rewrite length_app. simpl.
    destruct (Nat.ltb_spec 1 (length (split "/" base) + 2)); [|lia].
    by rewrite rev_app_distr.
Qed.

End UrlParts.

(** ** The characters of a title *)

Section TitleCharacters.

Implicit Types s t : string.

(** The first piece of [re.split] holds none of the characters it splits
    on. *)
Lemma split_from_head in_run s c :
  Re.is_sentence_end c = true ->
  match Re.split_from in_run s with
  | p :: _ => has_char c p = false
  | [] => True
  end.
Proof.
  intros Hc. revert in_run. induction s as [|a s IH]; intros in_run; [done|].
  simpl. destruct (Re.is_sentence_end a) eqn:Ha.
  - destruct in_run; [apply IH|done].
  - specialize (IH false). destruct (Re.split_from false s) as [|p ps]; simpl.
    + destruct (Ascii.eqb_spec a c) as [->|]; [congruence|done].
    + destruct (Ascii.eqb_spec a c) as [->|]; [congruence|done].
Qed.

Lemma split_from_nonempty in_run s : Re.split_from in_run s <> [].
Proof.
  revert in_run. induction s as [|a s IH]; intros in_run; [done|]. simpl.
  destruct (Re.is_sentence_end a).
  - destruct in_run; [apply IH|done].
  - by destruct (Re.split_from false s).
Qed.

Lemma first_sentence_text_clean transcript c :
  c = newline \/ Re.is_sentence_end c = true ->
  has_char c (first_sentence_text transcript) = false.
Proof.
  intros Hc. unfold first_sentence_text.
  set (first := match Re.split_sentences (strip transcript) with
                | s0 :: _ => strip s0
                | [] => strip transcript
                end).
  destruct Hc as [-> | Hc].
  - apply has_char_replace; [done| |done]. by apply has_char_replace_char.
  - assert (has_char c first = false) as Hfirst.
    { unfold first, Re.split_sentences.
      pose proof (split_from_head false (strip transcript) c Hc) as H.
      pose proof (split_from_nonempty false (strip transcript)) as Hne.
      destruct (Re.split_from false (strip transcript)) as [|p ps]; [done|].
      by apply has_char_strip. }
    assert (has_char c " " = false) as Hsp.
    { change (has_char c " ") with (Ascii.eqb " " c || false).
      destruct (Ascii.eqb_spec " " c) as [<-|]; [|done].
      vm_compute in Hc. discriminate. }
    apply has_char_replace; [done| |done]. by apply has_char_replace.
Qed.

(** X12. The heuristic title is a single line and holds no question or
    exclamation mark; before truncation it holds no full stop either, so
    that a full stop in it can only belong to the three dots of the
    truncation. *)
Theorem heuristic_title_characters transcript :
  has_char newline (extract_first_sentence transcript) = false /\
  has_char "!" (extract_first_sentence transcript) = false /\
  has_char "?" (extract_first_sentence transcript) = false /\
  has_char "." (first_sentence_text transcript) = false /\
  (len (first_sentence_text transcript) <= 50 ->
   has_char "." (extract_first_sentence transcript) = false).
Proof.
  unfold extract_first_sentence.
  split; [|split; [|split; [|split]]].
  - apply has_char_truncate_title; [|done]. apply first_sentence_text_clean. by left.
  - apply has_char_truncate_title; [|done]. apply first_sentence_text_clean. by right.
  - apply has_char_truncate_title; [|done]. apply first_sentence_text_clean. by right.
  - apply first_sentence_text_clean. by right.
  - intros H. rewrite truncate_title_short by done.
    apply first_sentence_text_clean. by right.
Qed.

(** X13. A title accepted from a model holds neither a double nor a single
    quote, and has at most 50 characters. *)
Theorem accepted_title_has_no_quote (ollama : nat -> string -> string -> OllamaReply)
  models prompt transcript filename (st st' : Transcriber) title :
  try_models ollama models prompt transcript filename st = (Some title, st') ->
  has_char dquote title = false /\
  has_char squote title = false /\
  len title <= 50.
Proof.
  intros H. apply try_models_accepted in H as (response & _ & -> & _).
  unfold clean_title, strip_quotes.
  split; [|split; [|apply len_truncate_title]].
  - apply has_char_truncate_title; [|done].
    apply has_char_replace; [done| |done]. by apply has_char_replace_char.
  - apply has_char_truncate_title; [|done]. by apply has_char_replace_char.
Qed.

End TitleCharacters.

(** ** Documents without audio *)

Section NoAudio.

Lemma contains_app p x y : contains p (x +:+ p +:+ y) = true.
Proof.
  induction x as [|c x IH].
  - rewrite app_nil_str. destruct (p +:+ y) eqn:E; simpl; rewrite <- E;
      by rewrite startswith_app.
  - rewrite app_cons_str. simpl. rewrite IH. apply orb_true_r.
Qed.

Lemma elem_of_extract_audio_urls content url :
  url ∈ extract_audio_urls content <->
  url ∈ Re.findall_urls "src" content \/ url ∈ Re.findall_urls "data-audio" content.
Proof.
  unfold extract_audio_urls.
  by rewrite merge_sort_Permutation, elem_of_elements, elem_of_list_to_set, elem_of_app.
Qed.

(** X15. A document in which the audio host does not occur has no audio
    URL. *)
Theorem no_audio_host_no_url content :
  contains Re.audio_host content = false -> extract_audio_urls content = [].
Proof.
  intros H. apply elem_of_nil_inv. intros url Hin.
  assert (exists attr, url ∈ Re.findall_from attr 0 content) as [attr Hocc].
  { apply elem_of_extract_audio_urls in Hin as [?|?]; eauto. }
  destruct (findall_from_occurs _ _ _ _ Hocc) as (pre & post & Hc & Hstart & _).
  apply startswith_split in Hstart.
  rewrite Hstart in Hc.
  assert (content = (pre +:+ attr +:+ "=" +:+ char dquote) +:+ Re.audio_host +:+
                    (drop (len Re.audio_host) url +:+ char dquote +:+ post)) as E.
  { rewrite Hc. by rewrite !app_assoc_str. }
  rewrite E, contains_app in H. done.
Qed.

End NoAudio.

(** ** Dictionaries with distinct keys *)

Section DictKeys.

Context {V : Type}.
Implicit Types d : list (string * V).

Lemma dict_get_is_key k v d : PyDict.get k d = Some v -> k ∈ d.*1.
Proof.
  induction d as [|[k' v'] d IH]; [done|]. simpl.
  destruct (String.eqb_spec k' k) as [->|]; [intros _; by left|].
  intros H. right. by apply IH.
Qed.

Lemma dict_get_elem k v d : NoDup d.*1 -> (k, v) ∈ d -> PyDict.get k d = Some v.
Proof.
  induction d as [|[k' v'] d IH]; intros Hnd Hin; [by apply elem_of_nil in Hin|].
  simpl in *. apply NoDup_cons in Hnd as [Hk Hnd].
  apply elem_of_cons in Hin as [[= -> ->]|Hin].
  - by rewrite String.eqb_refl.
  - destruct (String.eqb_spec k' k) as [->|]; [|by apply IH].
    destruct Hk. by apply (list_elem_of_fmap_2 fst) in Hin.
Qed.

Lemma dict_set_keys k v d :
  (PyDict.set k v d).*1 = if decide (k ∈ d.*1) then d.*1 else d.*1 ++ [k].
Proof.
  induction d as [|[k' v'] d IH].
  - destruct (decide (k ∈ ([] : list (string * V)).*1)) as [H|H]; [|done].
    by apply elem_of_nil in H.
  - cbn [PyDict.set]. destruct (String.eqb_spec k' k) as [->|Hne].
    + destruct (decide (k ∈ ((k, v') :: d).*1)) as [H|H]; [done|].
      destruct H. by left.
    + rewrite fmap_cons, IH. cbn [fst].
      destruct (decide (k ∈ ((k', v') :: d).*1)) as [H|H];
        destruct (decide (k ∈ d.*1)) as [Hin|Hin]; try done.
      * apply elem_of_cons in H as [->|?]; done.
      * destruct H. by right.
Qed.

Lemma dict_set_NoDup k v d : NoDup d.*1 -> NoDup (PyDict.set k v d).*1.
Proof.
  intros H. rewrite dict_set_keys. destruct (decide (k ∈ d.*1)); [done|].
  apply NoDup_app. split; [done|]. split; [|apply NoDup_singleton].
  intros x Hx ->%list_elem_of_singleton. done.
Qed.

End DictKeys.

(** ** The manifest *)

Section Manifest.

Variable scandir : gmap string string -> list (string * string).
Variable ollama : nat -> string -> string -> OllamaReply.
Variable json_dump : list (string * TranscriptRecord) -> string.

Implicit Types st : Transcriber.

(** The first loop of [save_transcriptions]: the items it goes through end
    up with a title and their transcript, the other entries are as they
    were. *)
Lemma add_titles_spec items st :
  NoDup items.*1 ->
  (forall k info, (k, info) ∈ items -> PyDict.get k (transcriptions st) = Some info) ->
  let st' := add_titles scandir ollama items st in
  (forall k info, (k, info) ∈ items ->
     exists info', PyDict.get k (transcriptions st') = Some info' /\
                   titled info' /\ tr_transcript info' = tr_transcript info) /\
  (forall k, k ∉ items.*1 ->
     PyDict.get k (transcriptions st') = PyDict.get k (transcriptions st)) /\
  cwd_files st' = cwd_files st.
Proof.
  revert st. induction items as [|[k0 info0] rest IH]; intros st Hnd Hitems.
  { simpl. split; [|done]. intros k info Hin. by apply elem_of_nil in Hin. }
  rewrite fmap_cons in Hnd. apply NoDup_cons in Hnd as [Hk0 Hnd]. cbn [fst] in Hk0.
  cbn [add_titles].
  destruct (tr_title info0) as [t0|] eqn:Ht0.
  - destruct (IH st Hnd) as (Hin & Hout & Hcwd).
    { intros k info H. apply Hitems. by right. }
    split; [|split; [|done]].
    + intros k info [[= -> ->]|H]%elem_of_cons; [|by apply Hin].
      exists info0. rewrite Hout by done. rewrite (Hitems k0 info0) by left.
      split; [done|]. split; [|done]. unfold titled. by rewrite Ht0.
    + intros k Hk. apply Hout. intros ?. apply Hk. rewrite fmap_cons. by right.
  - pose proof (generate_title_effects scandir ollama st (tr_transcript info0) k0)
      as (_ & Hcwd1 & Htr1).
    destruct (generate_title_from_transcript scandir ollama st (tr_transcript info0) k0)
      as [title st1]. cbn [fst snd] in *.
    set (info1 := {| tr_transcript := tr_transcript info0;
                     tr_audio_path := tr_audio_path info0;
                     tr_transcript_path := tr_transcript_path info0;
                     tr_title := Some title |}).
    set (st2 := set_transcriptions (PyDict.set k0 info1 (transcriptions st1)) st1).
    destruct (IH st2 Hnd) as (Hin & Hout & Hcwd).
    { intros k info H. unfold st2. cbn [transcriptions set_transcriptions].
      rewrite dict_get_set_ne, Htr1.
      - apply Hitems. by right.
      - intros ->. apply Hk0. by apply (list_elem_of_fmap_2 fst) in H. }
    split; [|split; [|by rewrite Hcwd]].
    + intros k info [[= -> ->]|H]%elem_of_cons; [|by apply Hin].
      exists info1. rewrite Hout by done. unfold st2.
      cbn [transcriptions set_transcriptions]. rewrite dict_get_set_eq.
      split; [done|]. split; [|done]. unfold titled. by eexists.
    + intros k Hk. rewrite Hout.
      * unfold st2. cbn [transcriptions set_transcriptions].
        rewrite dict_get_set_ne, Htr1; [done|].
        intros ->. apply Hk. rewrite fmap_cons. by left.
      * intros ?. apply Hk. rewrite fmap_cons. by right.
Qed.

(** X14. After [save_transcriptions] every entry of the dictionary has a
    title, the entries are those of before with their transcripts, and
    the manifest written is the dump of that dictionary. *)
Theorem save_transcriptions_titles_every_entry st :
  NoDup (transcriptions st).*1 ->
  let st' := save_transcriptions scandir ollama json_dump st in
  (forall k info, PyDict.get k (transcriptions st') = Some info -> titled info) /\
  (forall k info, PyDict.get k (transcriptions st) = Some info ->
     exists info', PyDict.get k (transcriptions st') = Some info' /\
                   tr_transcript info' = tr_transcript info) /\
  (forall k, PyDict.get k (transcriptions st) = None ->
             PyDict.get k (transcriptions st') = None) /\
  cwd_files st' !! "transcriptions.json" = Some (json_dump (transcriptions st')).
Proof.
  intros Hnd. cbv zeta. unfold save_transcriptions.
  destruct (add_titles_spec (transcriptions st) st Hnd) as (Hin & Hout & _).
  { intros k info H. by apply dict_get_elem. }
  cbv zeta in Hin, Hout.
  set (st1 := add_titles scandir ollama (transcriptions st) st) in *.
  cbn [transcriptions set_cwd_files cwd_files].
  assert (forall k info, PyDict.get k (transcriptions st) = Some info ->
            (k, info) ∈ transcriptions st) as Helem.
  { intros k info. generalize (transcriptions st). intros d.
    induction d as [|[k' v'] d IH]; [done|]. simpl.
    destruct (String.eqb_spec k' k) as [->|]; [intros [= ->]; by left|].
    intros H. right. by apply IH. }
  split; [|split; [|split]].
  - intros k info Hget.
    destruct (PyDict.get k (transcriptions st)) as [info0|] eqn:E.
    + destruct (Hin k info0 (Helem _ _ E)) as (info' & Hget' & Ht & _). congruence.
    + rewrite Hout in Hget; [congruence|].
      intros Hk. apply list_elem_of_fmap in Hk as ([k' v'] & -> & Hkv).
      apply dict_get_elem in Hkv; [|done]. cbn [fst] in E. congruence.
  - intros k info Hget. destruct (Hin k info (Helem _ _ Hget)) as (info' & ? & _ & ?).
    by exists info'.
  - intros k Hnone. rewrite Hout; [done|].
    intros Hk. apply list_elem_of_fmap in Hk as ([k' v'] & -> & Hkv).
    apply dict_get_elem in Hkv; [|done]. cbn [fst] in Hnone. congruence.
  - apply lookup_insert_eq.
Qed.

End Manifest.

(** ** The titles-only workflow *)

Section TitlesOnlyFacts.

Variable scandir : gmap string string -> list (string * string).
Hypothesis scandir_perm : forall m, scandir m ≡ₚ map_to_list m.
Variable unquote : string -> string.
Variable ollama : nat -> string -> string -> OllamaReply.
Variable json_dump : list (string * TranscriptRecord) -> string.

Implicit Types st : Transcriber.

Lemma only_models_refl st : only_models_called st st.
Proof. exists []. by rewrite app_nil_r. Qed.

Lemma only_models_trans st1 st2 st3 :
  only_models_called st1 st2 -> only_models_called st2 st3 -> only_models_called st1 st3.
Proof.
  intros [m1 E1] [m2 E2]. exists (m1 ++ m2).
  by rewrite E2, E1, fmap_app, app_assoc.
Qed.

Lemma only_models_same_events st st' : events st' = events st -> only_models_called st st'.
Proof. intros E. exists []. by rewrite app_nil_r. Qed.

Lemma only_models_generate st transcript filename :
  only_models_called st
    (generate_title_from_transcript scandir ollama st transcript filename).2.
Proof.
  unfold generate_title_from_transcript.
  destruct (load_human_titles scandir st !! filename); [by apply only_models_same_events|].
  pose proof (try_models_trace ollama models_to_try (prompt_of transcript filename)
                transcript filename st) as (k & _ & Hev & _).
  destruct (try_models ollama models_to_try (prompt_of transcript filename)
              transcript filename st) as [[title|] st']; cbn [fst snd] in *.
  - by eexists.
  - eapply only_models_trans; [by eexists|]. by apply only_models_same_events.
Qed.

Lemma only_models_add_titles items st :
  only_models_called st (add_titles scandir ollama items st).
Proof.
  revert st. induction items as [|[filename info] rest IH]; intros st;
    [apply only_models_refl|].
  cbn [add_titles]. destruct (tr_title info); [apply IH|].
  pose proof (only_models_generate st (tr_transcript info) filename) as Hg.
  destruct (generate_title_from_transcript scandir ollama st (tr_transcript info) filename)
    as [title st1]. cbn [snd] in Hg.
  eapply only_models_trans; [exact Hg|].
  eapply only_models_trans; [|apply IH]. by apply only_models_same_events.
Qed.

Lemma only_models_save st :
  only_models_called st (save_transcriptions scandir ollama json_dump st).
Proof.
  unfold save_transcriptions.
  eapply only_models_trans; [apply only_models_add_titles|].
  by apply only_models_same_events.
Qed.

Lemma only_models_title_urls urls url_to_title st :
  only_models_called st (title_urls scandir unquote ollama urls url_to_title st).2.
Proof.
  revert url_to_title st. induction urls as [|url rest IH]; intros url_to_title st;
    [apply only_models_refl|].
  cbn [title_urls]. cbv zeta.
  destruct (PyDict.get (unquote (last_segment url)) (transcriptions st)) as [info|];
    [|apply IH].
  pose proof (only_models_generate st (tr_transcript info) (unquote (last_segment url)))
    as Hg.
  destruct (generate_title_from_transcript scandir ollama st (tr_transcript info)
              (unquote (last_segment url))) as [title st1]. cbn [snd] in Hg.
  eapply only_models_trans; [exact Hg|].
  eapply only_models_trans; [|apply IH].
  apply only_models_same_events.
  by destruct (PyDict.get (unquote (last_segment url)) (transcriptions st1)).
Qed.

Lemma load_transcript_file_frame st entry :
  out_files (load_transcript_file st entry) = out_files st /\
  cwd_files (load_transcript_file st entry) = cwd_files st /\
  events (load_transcript_file st entry) = events st.
Proof.
  destruct entry as [name content]. unfold load_transcript_file.
  by destruct (out_files st !! replace ".txt" ".mp3" name).
Qed.

Lemma load_transcript_files_frame entries st :
  out_files (foldl load_transcript_file st entries) = out_files st /\
  cwd_files (foldl load_transcript_file st entries) = cwd_files st /\
  events (foldl load_transcript_file st entries) = events st.
Proof.
  revert st. induction entries as [|entry rest IH]; intros st; [done|].
  simpl. destruct (IH (load_transcript_file st entry)) as (-> & -> & ->).
  apply load_transcript_file_frame.
Qed.

(** X16. The titles-only workflow never fetches and never transcribes: the
    only calls it adds to the history are calls to models. *)
Theorem titles_only_calls_models_only st :
  only_models_called st
    (run_titles_only_workflow scandir unquote ollama json_dump st).2.
Proof.
  unfold run_titles_only_workflow, load_existing_transcriptions, process_html_file_titles_only.
  destruct (load_transcript_files_frame (transcript_files scandir st) st) as (_ & _ & Hev).
  set (st0 := foldl load_transcript_file st (transcript_files scandir st)) in *.
  assert (only_models_called st st0) as H0 by (by apply only_models_same_events).
  destruct (transcriptions st0); [done|].
  destruct (cwd_files st0 !! "index.html") as [content|]; cbn [mbind option_bind].
  - pose proof (only_models_title_urls (extract_audio_urls (read_text content)) [] st0)
      as Hp.
    destruct (title_urls scandir unquote ollama (extract_audio_urls (read_text content))
                [] st0)
      as [url_to_title st1]. cbn [snd] in Hp.
    assert (only_models_called st1 (update_html_file st1 "index.html" url_to_title).2)
      as Hu.
    { apply only_models_same_events. unfold update_html_file.
      by destruct (update_html "index.html" url_to_title (cwd_files st1)). }
    destruct (update_html_file st1 "index.html" url_to_title) as [[|] st2]; cbn [snd] in *.
    + eapply only_models_trans; [exact H0|]. eapply only_models_trans; [exact Hp|].
      eapply only_models_trans; [exact Hu|apply only_models_save].
    + eapply only_models_trans; [exact H0|]. by eapply only_models_trans.
  - cbn [snd]. eapply only_models_trans; [exact H0|apply only_models_save].
Qed.

(** X17. In the titles-only workflow, when no transcript is found the run
    ends at once with nothing written; and when transcripts are found but
    [index.html] is missing, the manifest is written and the run then
    raises, its last line reading a variable that was never bound. *)
Theorem titles_only_without_document st :
  let st0 := load_existing_transcriptions scandir st in
  let result := run_titles_only_workflow scandir unquote ollama json_dump st in
  out_files st0 = out_files st /\ cwd_files st0 = cwd_files st /\
  (transcriptions st0 = [] -> result = (Completed, st0)) /\
  (transcriptions st0 <> [] -> cwd_files st !! "index.html" = None ->
   result.1 = Raised /\
   cwd_files result.2 !! "transcriptions.json" =
     Some (json_dump (transcriptions result.2))).
Proof.
  cbv zeta. unfold run_titles_only_workflow, process_html_file_titles_only.
  unfold load_existing_transcriptions.
  destruct (load_transcript_files_frame (transcript_files scandir st) st) as (Ho & Hc & _).
  set (st0 := foldl load_transcript_file st (transcript_files scandir st)) in *.
  split; [done|]. split; [done|]. split.
  - by intros ->.
  - intros Hne Hdoc. destruct (transcriptions st0); [done|].
    rewrite Hc, Hdoc. cbn [mbind option_bind fst snd].
    split; [done|]. unfold save_transcriptions. apply lookup_insert_eq.
Qed.

End TitlesOnlyFacts.

(** ** File names that own their title file *)

Section OwnTitleFile.

Implicit Types s stem name : string.

Lemma replace_from_skip old new x rest :
  replace_from old new (len x) (x +:+ rest) = replace_from old new 0 rest.
Proof.
  induction x as [|c x IH]; [done|].
  rewrite app_cons_str, len_cons. simpl. exact IH.
Qed.

Lemma replace_from_match_app old new rest :
  old <> EmptyString ->
  replace_from old new 0 (old +:+ rest) = new +:+ replace_from old new 0 rest.
Proof.
  intros Ho. destruct old as [|a old']; [done|].
  rewrite app_cons_str. cbn [replace_from].
  assert (startswith (String a old') (String a (old' +:+ rest)) = true) as ->
    by (rewrite <- app_cons_str; apply startswith_app).
  rewrite len_cons. replace (S (len old') - 1) with (len old') by lia.
  by rewrite replace_from_skip.
Qed.

Lemma replace_from_match old new s :
  old <> EmptyString -> startswith old s = true ->
  replace_from old new 0 s = new +:+ replace_from old new 0 (drop (len old) s).
Proof.
  intros Ho Hs. pose proof (startswith_split _ _ Hs) as E.
  rewrite E at 1. by apply replace_from_match_app.
Qed.

Lemma replace_from_no_match old new c r :
  startswith old (String c r) = false ->
  replace_from old new 0 (String c r) = String c (replace_from old new 0 r).
Proof. intros H. cbn [replace_from]. by rewrite H. Qed.

Lemma startswith_dot_false old' c r :
  Ascii.eqb c "." = false -> startswith (String "." old') (String c r) = false.
Proof. intros H. cbn [startswith]. by rewrite Ascii.eqb_sym, H. Qed.

(** A text without dot goes through a replacement of a suffix. *)
Lemma replace_from_dotfree old' new x rest :
  has_char "." x = false ->
  replace_from (String "." old') new 0 (x +:+ rest) =
  x +:+ replace_from (String "." old') new 0 rest.
Proof.
  induction x as [|c x IH]; intros H; [done|].
  simpl in H. apply orb_false_iff in H as [Hc Hx].
  rewrite !app_cons_str, replace_from_no_match by (by apply startswith_dot_false).
  by rewrite IH.
Qed.

Lemma title_file_name_simple stem :
  has_char "." stem = false -> title_file_name (stem +:+ ".mp3") = stem +:+ ".title".
Proof.
  intros H. unfold title_file_name, replace.
  rewrite replace_from_dotfree by done.
  change (replace_from ".mp3" EmptyString 0 ".mp3") with EmptyString.
  by rewrite app_empty_r.
Qed.

Lemma mp3_of_title_file_simple stem :
  has_char "." stem = false -> mp3_of_title_file (stem +:+ ".title") = stem +:+ ".mp3".
Proof.
  intros H. unfold mp3_of_title_file, replace. by rewrite replace_from_dotfree.
Qed.

Lemma to_mp3_not_empty s : replace_from ".title" ".mp3" 0 s = EmptyString -> s = EmptyString.
Proof.
  destruct s as [|c r]; [done|]. cbn [replace_from].
  destruct (startswith ".title" (String c r)); [|done].
  intros H. apply (f_equal len) in H. rewrite len_app in H.
  change (len ".mp3") with 4 in H. change (len EmptyString) with 0 in H. lia.
Qed.

(** Where the replacement leaves no dot there was nothing to replace. *)
Lemma to_mp3_dotfree n s :
  len s <= n ->
  has_char "." (replace_from ".title" ".mp3" 0 s) = false ->
  replace_from ".title" ".mp3" 0 s = s.
Proof.
  revert s. induction n as [|n IH]; intros s Hn H.
  { destruct s; [done|]. rewrite len_cons in Hn. lia. }
  destruct s as [|c r]; [done|]. rewrite len_cons in Hn.
  destruct (startswith ".title" (String c r)) eqn:Hs.
  - rewrite replace_from_match in H by done. rewrite has_char_app in H. done.
  - rewrite replace_from_no_match in * by done. simpl in H.
    apply orb_false_iff in H as [_ H]. rewrite IH; [done|lia|done].
Qed.

(** The names that lead to [stem.mp3]. *)
Lemma to_mp3_simple_inv n name stem :
  len name <= n ->
  has_char "." stem = false ->
  replace_from ".title" ".mp3" 0 name = stem +:+ ".mp3" ->
  name = stem +:+ ".title" \/ name = stem +:+ ".mp3".
Proof.
  revert name stem. induction n as [|n IH]; intros name stem Hn Hstem H.
  { destruct name; [|rewrite len_cons in Hn; lia].
    apply (f_equal len) in H. rewrite len_app in H.
    change (len ".mp3") with 4 in H.
    change (len (replace_from ".title" ".mp3" 0 EmptyString)) with 0 in H. lia. }
  destruct name as [|c r].
  { apply (f_equal len) in H. rewrite len_app in H.
    change (len ".mp3") with 4 in H.
    change (len (replace_from ".title" ".mp3" 0 EmptyString)) with 0 in H. lia. }
  rewrite len_cons in Hn.
  destruct (startswith ".title" (String c r)) eqn:Hs.
  - rewrite replace_from_match in H by done.
    remember (replace_from ".title" ".mp3" 0 (drop (len ".title") (String c r))) as R eqn:ER.
    destruct stem as [|a stem'].
    + rewrite !app_cons_str, !app_nil_str in H. injection H as H.
      subst R. apply to_mp3_not_empty in H.
      left. rewrite app_nil_str, (startswith_split _ _ Hs), H. by rewrite app_empty_r.
    + cbn [has_char] in Hstem. apply orb_false_iff in Hstem as [Ha _].
      rewrite !app_cons_str in H. injection H as <- _. done.
  - rewrite replace_from_no_match in H by done.
    destruct stem as [|a stem'].
    + rewrite app_nil_str in H. injection H as -> H.
      right. rewrite app_nil_str. f_equal.
      rewrite <- H. symmetry. apply (to_mp3_dotfree (len r)); [done|by rewrite H].
    + rewrite app_cons_str in H. injection H as -> H.
      cbn [has_char] in Hstem. apply orb_false_iff in Hstem as [_ Hstem].
      destruct (IH r stem') as [-> | ->]; [lia|done|done| |].
      * left. by rewrite app_cons_str.
      * right. by rewrite app_cons_str.
Qed.

(** X18. A file name made of a stem without dot and the suffix [.mp3] owns
    its title file in every directory: the title file is [stem.title], it
    leads back to the file name, and no other title file does. *)
Theorem simple_name_owns_title_file (files : gmap string string) stem :
  has_char "." stem = false ->
  title_file_name (stem +:+ ".mp3") = stem +:+ ".title" /\
  owns_title_file files (stem +:+ ".mp3").
Proof.
  intros Hstem. split; [by apply title_file_name_simple|].
  split.
  - by rewrite title_file_name_simple, mp3_of_title_file_simple.
  - apply map_Forall_lookup. intros name content _ Hends Hto.
    rewrite title_file_name_simple by done.
    unfold mp3_of_title_file, replace in Hto.
    destruct (to_mp3_simple_inv (len name) name stem) as [-> | ->]; [done..| |]; [done|].
    apply endswith_split in Hends.
    change ".title" with ("." +:+ "titl" +:+ char "e") in Hends at 2.
    change (stem +:+ ".mp3") with (stem +:+ ".mp" +:+ char "3") in Hends at 1.
    rewrite <- !app_assoc_str in Hends. by apply last_char_eq in Hends.
Qed.

End OwnTitleFile.

(** ** Transcripts found on disk *)

Section ExistingTranscripts.

Variable scandir : gmap string string -> list (string * string).
Hypothesis scandir_perm : forall m, scandir m ≡ₚ map_to_list m.

Implicit Types st : Transcriber.

Lemma elem_of_transcript_files st name content :
  (name, content) ∈ transcript_files scandir st <->
  endswith ".txt" name = true /\ out_files st !! name = Some content.
Proof.
  unfold transcript_files. rewrite list_elem_of_filter, scandir_perm, elem_of_map_to_list.
  done.
Qed.

Lemma load_transcript_files_keep_keys entries st k :
  is_Some (PyDict.get k (transcriptions st)) ->
  is_Some (PyDict.get k (transcriptions (foldl load_transcript_file st entries))).
Proof.
  revert st. induction entries as [|[name content] rest IH]; intros st H; [done|].
  cbn [foldl]. apply IH. unfold load_transcript_file.
  destruct (out_files st !! replace ".txt" ".mp3" name); [|done].
  by apply dict_get_set_is_Some.
Qed.

Lemma load_transcript_files_complete entries st name content :
  (name, content) ∈ entries ->
  is_Some (out_files st !! replace ".txt" ".mp3" name) ->
  is_Some (PyDict.get (replace ".txt" ".mp3" name)
             (transcriptions (foldl load_transcript_file st entries))).
Proof.
  revert st. induction entries as [|entry rest IH]; intros st Hin Haudio.
  { by apply elem_of_nil in Hin. }
  cbn [foldl]. apply elem_of_cons in Hin as [<- | Hin].
  - apply load_transcript_files_keep_keys. unfold load_transcript_file.
    destruct Haudio as [audio ->]. cbn [transcriptions set_transcriptions].
    rewrite dict_get_set_eq. eauto.
  - apply IH; [done|].
    by destruct (load_transcript_file_frame st entry) as (-> & _).
Qed.

Lemma load_transcript_files_sound entries st k info :
  PyDict.get k (transcriptions (foldl load_transcript_file st entries)) = Some info ->
  PyDict.get k (transcriptions st) = Some info \/
  exists name content,
    (name, content) ∈ entries /\
    k = replace ".txt" ".mp3" name /\
    is_Some (out_files st !! k) /\
    info = {| tr_transcript := strip (read_text content);
              tr_audio_path := output_path k;
              tr_transcript_path := output_path name;
              tr_title := None |}.
Proof.
  revert st. induction entries as [|[name content] rest IH]; intros st H; [by left|].
  cbn [foldl] in H. apply IH in H as [H | (name' & content' & Hin & -> & Haudio & ->)].
  - unfold load_transcript_file in H.
    destruct (out_files st !! replace ".txt" ".mp3" name) as [audio|] eqn:Haudio;
      [|by left].
    cbn [transcriptions set_transcriptions] in H.
    destruct (decide (replace ".txt" ".mp3" name = k)) as [<- | Hne].
    + rewrite dict_get_set_eq in H. injection H as <-.
      right. exists name, content. rewrite Haudio.
      split; [apply elem_of_cons; by left|]. eauto.
    + rewrite dict_get_set_ne in H by done. by left.
  - right. exists name', content'.
    destruct (load_transcript_file_frame st (name, content)) as (Hout & _).
    rewrite Hout in Haudio.
    split; [apply elem_of_cons; by right|]. eauto.
Qed.

(** X19. What [load_existing_transcriptions] registers: every transcript
    file whose audio file is in the output directory gets an entry under
    the name of the audio file, and every entry that was not there before
    comes from such a file, holds its text as it is read, stripped, and
    has no title yet.
    The directory itself is only read. *)
Theorem load_existing_transcriptions_entries st :
  let st' := load_existing_transcriptions scandir st in
  out_files st' = out_files st /\
  (forall name content,
     out_files st !! name = Some content ->
     endswith ".txt" name = true ->
     is_Some (out_files st !! replace ".txt" ".mp3" name) ->
     is_Some (PyDict.get (replace ".txt" ".mp3" name) (transcriptions st'))) /\
  (forall k info,
     PyDict.get k (transcriptions st') = Some info ->
     PyDict.get k (transcriptions st) = Some info \/
     exists name content,
       out_files st !! name = Some content /\
       endswith ".txt" name = true /\
       k = replace ".txt" ".mp3" name /\
       is_Some (out_files st !! k) /\
       info = {| tr_transcript := strip (read_text content);
                 tr_audio_path := output_path k;
                 tr_transcript_path := output_path name;
                 tr_title := None |}).
Proof.
  cbv zeta. unfold load_existing_transcriptions. split; [|split].
  - apply load_transcript_files_frame.
  - intros name content Hfile Hends Haudio.
    apply (load_transcript_files_complete _ _ name content); [|done].
    by apply elem_of_transcript_files.
  - intros k info H.
    apply load_transcript_files_sound in H
      as [H | (name & content & Hin & -> & Haudio & ->)]; [by left|].
    apply elem_of_transcript_files in Hin as [Hends Hfile].
    right. exists name, content. eauto 10.
Qed.

End ExistingTranscripts.

(** ** The URLs of the backup *)

Section BackupUrls.

Variable unquote : string -> string.
Variable http_get : nat -> string -> HttpResponse.
Variable elsewhere : nat -> string -> PathState.
Variable directory_size : string -> nat.

Implicit Types st : Downloader.

Lemma elem_of_document_urls (docs : gmap string string) html_files (acc : gset string) url :
  url ∈ foldl (fun acc html_file =>
                 match docs !! html_file with
                 | Some stored => acc ∪ list_to_set (extract_audio_urls (read_text stored))
                 | None => acc
                 end) acc html_files <->
  url ∈ acc \/
  exists html_file stored,
    html_file ∈ html_files /\ docs !! html_file = Some stored /\
    url ∈ extract_audio_urls (read_text stored).
Proof.
  revert acc. induction html_files as [|f rest IH]; intros acc.
  - cbn [foldl]. split; [by left|]. intros [H | (f & c & Hin & _)]; [done|].
    by apply elem_of_nil in Hin.
  - cbn [foldl]. rewrite IH. split.
    + intros [H | (f' & c & Hin & Hdoc & Hurl)].
      * destruct (docs !! f) as [stored|] eqn:Hf; [|by left].
        apply elem_of_union in H as [H | H]; [by left|].
        right. exists f, stored. rewrite elem_of_list_to_set in H.
        split; [apply elem_of_cons; by left|done].
      * right. exists f', c. split; [apply elem_of_cons; by right|done].
    + intros [H | (f' & c & Hin & Hdoc & Hurl)].
      * left. destruct (docs !! f); [|done]. apply elem_of_union. by left.
      * apply elem_of_cons in Hin as [-> | Hin].
        -- left. rewrite Hdoc. apply elem_of_union. right.
           by apply elem_of_list_to_set.
        -- right. by exists f', c.
Qed.

(** X20. [process_html_files] collects the audio URLs of the documents that
    exist, a URL found in several documents being counted once, and sets
    [total_files] to their number; the requests it makes are for URLs of
    that collection, each at most once. *)
Theorem process_html_files_urls docs html_files st :
  let st' :=
    process_html_files unquote http_get elsewhere directory_size docs html_files st in
  exists (all_urls : gset string) (new : list string),
    (forall url,
       url ∈ all_urls <->
       exists html_file stored,
         html_file ∈ html_files /\ docs !! html_file = Some stored /\
         url ∈ extract_audio_urls (read_text stored)) /\
    total_files (stats st') = size all_urls /\
    requests st' = requests st ++ new /\
    NoDup new /\
    (forall url, url ∈ new -> url ∈ all_urls).
Proof.
  cbv zeta. unfold process_html_files.
  set (all_urls := foldl _ ∅ html_files).
  set (sorted := merge_sort String.le (elements all_urls)).
  assert (sorted ≡ₚ elements all_urls) as Hperm by apply merge_sort_Permutation.
  destruct (download_all_trace unquote http_get elsewhere directory_size sorted
              (set_stats (set_total_files (length sorted) (stats st)) st))
    as ((new & Hreq & Hsub) & _ & _ & _ & _ & Htot).
  cbv zeta in Hreq, Htot.
  exists all_urls, new. split; [|split; [|split; [|split]]].
  - intros url. unfold all_urls. rewrite elem_of_document_urls.
    split; [intros [H | H]; [set_solver|done]|by right].
  - rewrite Htot. cbn [stats set_stats total_files set_total_files].
    by rewrite Hperm.
  - exact Hreq.
  - eapply sublist_NoDup; [|exact Hsub]. rewrite Hperm. apply NoDup_elements.
  - intros url Hin. apply elem_of_elements. rewrite <- Hperm.
    by eapply elem_of_sublist.
Qed.

End BackupUrls.

(** ** Examples of the further properties *)

(** The stream breaks after three bytes: they stay in the directory, and
    the next call, to a server that is well, fetches nothing. *)
Lemma download_audio_file_trusts_presence_witness :
  out_files
    (download_audio_file unquote_plain http_broken nothing_elsewhere nothing_on_disk
       secret_url).2 !! secret_mp3 = Some "abc" /\
  download_audio_file unquote_plain http_ok nothing_elsewhere
    (download_audio_file unquote_plain http_broken nothing_elsewhere nothing_on_disk
       secret_url).2 secret_url
  = (Some secret_mp3,
     (download_audio_file unquote_plain http_broken nothing_elsewhere nothing_on_disk
        secret_url).2).
Proof.
  destruct (download_audio_file_trusts_presence unquote_plain http_broken
              nothing_elsewhere nothing_on_disk secret_url) as (_ & Hfile & _ & Hnext).
  - evaluate.
  - evaluate.
  - evaluate.
  - split; [exact Hfile|]. apply Hnext.
Defined.

Lemma transcribe_audio_registers_witness :
  (transcribe_audio whisper_fixed transcribed_earlier secret_mp3).1
    = Some "Hello world. It was wild.".
Proof.
  apply (transcribe_audio_registers whisper_fixed transcribed_earlier secret_mp3
           ["Hello world."; "It was wild."]).
  - evaluate.
  - evaluate.
Defined.

Lemma download_all_keeps_existing_files_witness :
  backup_files
    (download_all unquote_plain http_ok nothing_elsewhere directory_4096
       [secret_url; other_url] one_file_backup)
    !! ("random", "01+secret.mp3") = Some "ID3data".
Proof.
  apply (download_all_keeps_existing_files unquote_plain http_ok nothing_elsewhere
           directory_4096 [secret_url; other_url] one_file_backup).
  evaluate.
Defined.

Lemma patch_url_without_match_witness :
  patch_url plain_html (secret_url, "A Secret Confession") = Some plain_html.
Proof.
  apply patch_url_without_match; evaluate.
Defined.

(** In the document of the example the item of the first URL gets the
    title and the item of the other URL keeps its text. *)
Lemma li_substitution_frame_witness :
  retitled secret_url "A Secret Confession" index_html index_html_patched.
Proof.
  destruct (li_substitution_frame secret_url "A Secret Confession" index_html)
    as (out & Hsub & Hret); [evaluate|evaluate|].
  assert (out = index_html_patched) as <-; [|exact Hret].
  vm_compute in Hsub. injection Hsub as <-. vm_compute. reflexivity.
Defined.

Lemma apply_existing_titles_without_match_witness :
  (apply_existing_titles [(secret_url, backslash_title)] (site index_html)).1 = Completed.
Proof.
  apply (apply_existing_titles_without_match [(secret_url, backslash_title)]
           (site index_html) index_html).
  - evaluate.
  - intros url title Hin. apply list_elem_of_singleton in Hin. injection Hin as -> ->.
    evaluate.
Defined.

Lemma url_parts_witness :
  last_segment secret_url = "01+secret.mp3" /\ category_of secret_url = "random".
Proof.
  destruct (url_parts "https://s3-us-west-1.amazonaws.com/randombmir" "random"
              "01+secret.mp3") as (H1 & H2 & _).
  - evaluate.
  - evaluate.
  - split; [exact H1|exact H2].
Defined.

Lemma accepted_title_has_no_quote_witness :
  has_char dquote
    (generate_title_from_transcript scandir_map ollama_long nothing_on_disk
       secret_transcript secret_mp3).1 = false.
Proof.
  destruct (try_models ollama_long models_to_try (prompt_of secret_transcript secret_mp3)
              secret_transcript secret_mp3 nothing_on_disk) as [[title|] st'] eqn:E;
    [|vm_compute in E; discriminate].
  destruct (accepted_title_has_no_quote ollama_long models_to_try
              (prompt_of secret_transcript secret_mp3) secret_transcript secret_mp3
              nothing_on_disk st' title E) as [H _].
  unfold generate_title_from_transcript.
  assert (load_human_titles scandir_map nothing_on_disk !! secret_mp3 = None) as ->
    by evaluate.
  rewrite E. exact H.
Defined.

Lemma no_audio_host_no_url_witness : extract_audio_urls plain_html = [].
Proof. apply no_audio_host_no_url. evaluate. Defined.

(** The transcript found on disk gets its title when the manifest is
    written, though no model answers. *)
Lemma save_transcriptions_titles_every_entry_witness :
  exists info,
    PyDict.get secret_mp3
      (transcriptions
         (save_transcriptions scandir_map ollama_down json_plain
            (load_existing_transcriptions scandir_map transcribed_earlier)))
    = Some info /\
    titled info.
Proof.
  assert (NoDup (transcriptions
                   (load_existing_transcriptions scandir_map transcribed_earlier)).*1)
    as Hkeys by (apply (bool_decide_unpack _); vm_compute; exact I).
  destruct (save_transcriptions_titles_every_entry scandir_map ollama_down json_plain
              (load_existing_transcriptions scandir_map transcribed_earlier) Hkeys)
    as (Htitled & _).
  eexists. split; [vm_compute; reflexivity|].
  apply (Htitled secret_mp3). evaluate.
Defined.

Lemma simple_name_owns_title_file_witness :
  title_file_name secret_mp3 = "01+secret.title" /\
  owns_title_file (out_files transcribed_earlier) secret_mp3.
Proof.
  apply (simple_name_owns_title_file (out_files transcribed_earlier) "01+secret").
  evaluate.
Defined.

Lemma load_existing_transcriptions_entries_witness :
  is_Some
    (PyDict.get secret_mp3
       (transcriptions (load_existing_transcriptions scandir_map transcribed_earlier))).
Proof.
  destruct (load_existing_transcriptions_entries scandir_map scandir_map_perm
              transcribed_earlier) as (_ & Hfound & _).
  apply (Hfound "01+secret.txt" "An earlier transcript.").
  - evaluate.
  - evaluate.
  - apply (bool_decide_unpack _). vm_compute. exact I.
Defined.

(** Without [index.html] the titles-only workflow ends with an exception,
    after the manifest was written. *)
Lemma titles_only_without_document_witness :
  (run_titles_only_workflow scandir_map unquote_plain ollama_down json_plain
     transcribed_earlier).1 = Raised.
Proof.
  destruct (titles_only_without_document scandir_map unquote_plain ollama_down json_plain
              transcribed_earlier) as (_ & _ & _ & Hmissing).
  apply Hmissing.
  - evaluate.
  - evaluate.
Defined.
